(** * The MLX driver process: protocol loop, prompt formatting, end-of-sequence
    detection and capability probing.

    Shallow embedding of
      packages/driver/src/mlx-ml/python/__main__.py
      packages/driver/src/mlx-ml/python/token_utils.py
      packages/driver/src/mlx-ml/python/chat_template_constraints.py

    Python [str] values are [string]s whose characters stand for code points
    below 256.  The inference runtime (tokenizer, [stream_generate]) and the
    [json] module are external to the repository: they enter as fields of the
    records [Tokenizer] and [Runtime]. *)

From Stdlib Require Import Ascii String ZArith List Lia.
From stdpp Require Import base option list strings gmap.

Local Open Scope nat_scope.

(* ===================================================================== *)
(** * Part I: the embedding                                               *)
(* ===================================================================== *)

(** ** Sequences: the algorithms behind [str.find], [str.split], [str.join] *)

Module Seq.
Section Sequences.
Context {A : Type} `{EqDecision A}.

(** [s.startswith(p)] *)
Fixpoint starts_with (p s : list A) : bool :=
  match p, s with
  | [], _ => true
  | _ :: _, [] => false
  | x :: p', y :: s' => bool_decide (x = y) && starts_with p' s'
  end.

(** [s.find(p)]: index of the first occurrence, [None] for Python's -1. *)
Fixpoint find (p s : list A) : option nat :=
  if starts_with p s then Some 0
  else match s with
       | [] => None
       | _ :: s' => S <$> find p s'
       end.

(** [s.rfind(p)]: index of the last occurrence. *)
Fixpoint rfind (p s : list A) : option nat :=
  match s with
  | [] => if starts_with p [] then Some 0 else None
  | _ :: s' =>
      match rfind p s' with
      | Some i => Some (S i)
      | None => if starts_with p s then Some 0 else None
      end
  end.

(** [s.split(p)] for a non-empty separator: cut at the first occurrence,
    resume behind it.  Every cut removes at least one element, so
    [length s] rounds are enough. *)
Fixpoint split_go (n : nat) (p s : list A) : list (list A) :=
  match n with
  | 0 => [s]
  | S n' =>
      match find p s with
      | None => [s]
      | Some i => take i s :: split_go n' p (drop (i + length p) s)
      end
  end.

Definition split (p s : list A) : list (list A) := split_go (length s) p s.

(** [p.join(parts)] *)
Fixpoint join (p : list A) (parts : list (list A)) : list A :=
  match parts with
  | [] => []
  | x :: rest =>
      match rest with
      | [] => x
      | _ :: _ => x ++ p ++ join p rest
      end
  end.

(** Start of the last cut made by the left-to-right scan of [split]. *)
Fixpoint scan_last_go (n : nat) (p s : list A) : option nat :=
  match n with
  | 0 => None
  | S n' =>
      match find p s with
      | None => None
      | Some i =>
          Some (match scan_last_go n' p (drop (i + length p) s) with
                | None => i
                | Some j => i + length p + j
                end)
      end
  end.

Definition scan_last (p s : list A) : option nat :=
  scan_last_go (length s) p s.

(** [p] occurs in [s] at index [i]. *)
Definition occurs_at (p s : list A) (i : nat) : Prop :=
  exists pre post, s = pre ++ p ++ post /\ length pre = i.

Definition occurs (p s : list A) : Prop := exists i, occurs_at p s i.

(** No two occurrences of [p] in [s] share a position. *)
Definition no_overlap (p s : list A) : Prop :=
  forall i k, occurs_at p s i -> occurs_at p s k -> i < k -> i + length p <= k.

(** [s.lstrip()] and [s.strip()] for a class [ws] of elements. *)
Fixpoint lstrip (ws : A -> bool) (s : list A) : list A :=
  match s with
  | [] => []
  | x :: s' => if ws x then lstrip ws s' else s
  end.

Definition strip (ws : A -> bool) (s : list A) : list A :=
  rev (lstrip ws (rev (lstrip ws s))).

End Sequences.
End Seq.

(** ** Python strings *)

Definition chars (s : string) : list ascii := list_ascii_of_string s.
Definition of_chars (l : list ascii) : string := string_of_list_ascii l.

(** The line feed and the NUL character. *)
Definition LF : string := String "010"%char EmptyString.
Definition NUL : string := String "000"%char EmptyString.

(** The response terminator [print('\n', end='\0')] writes. *)
Definition terminator : string := LF +:+ NUL.

(** [c.isspace()] for a code point below 256. *)
Definition isspace (c : ascii) : bool :=
  let n := nat_of_ascii c in
  ((9 <=? n) && (n <=? 13)) || ((28 <=? n) && (n <=? 32))
  || (n =? 133) || (n =? 160).

(** [s.strip()] *)
Definition str_strip (s : string) : string :=
  of_chars (Seq.strip isspace (chars s)).

(** [s.replace('\0', '')] *)
Fixpoint str_remove_nul (s : string) : string :=
  match s with
  | EmptyString => EmptyString
  | String c s' =>
      if Ascii.eqb c "000"%char then str_remove_nul s'
      else String c (str_remove_nul s')
  end.

(** [sep.join(parts)] *)
Fixpoint str_join (sep : string) (parts : list string) : string :=
  match parts with
  | [] => ""
  | x :: rest =>
      match rest with
      | [] => x
      | _ :: _ => x +:+ sep +:+ str_join sep rest
      end
  end.

(** [''.join(parts)] *)
Definition str_concat (parts : list string) : string :=
  foldr String.append "" parts.

(** [p in s] *)
Definition str_occurs (p s : string) : Prop :=
  exists pre post, s = pre +:+ p +:+ post.

(** [s.rfind(p)] and [s[:i]] *)
Definition str_rfind (s p : string) : option nat := Seq.rfind (chars p) (chars s).
Definition str_upto (s : string) (i : nat) : string := of_chars (take i (chars s)).

(** Number of NUL characters of a text. *)
Fixpoint count_nul (s : string) : nat :=
  match s with
  | EmptyString => 0
  | String c s' => (if Ascii.eqb c "000"%char then 1 else 0) + count_nul s'
  end.

(** ** Exceptions and the input/output trace *)

(** An exception, with the text [str(e)] gives. *)
Inductive exn : Type :=
| Exception (msg : string).

Definition exn_str (e : exn) : string :=
  match e with Exception msg => msg end.

Inductive outcome (A : Type) : Type :=
| Return (a : A)
| Raise (e : exn).
Arguments Return {A} a.
Arguments Raise {A} e.

(** What the process does that its environment can see: a write to standard
    output (one [print] call), a write to standard error, and the delivery of
    one chunk by the generation sequence. *)
Inductive event : Type :=
| Stdout (s : string)
| Stderr (s : string)
| Pull.

(** A computation: the events it performed and how it ended. *)
Definition io (A : Type) : Type := (list event * outcome A)%type.

Definition ret {A} (a : A) : io A := ([], Return a).
Definition raise {A} (e : exn) : io A := ([], Raise e).

Definition bind {A B} (m : io A) (k : A -> io B) : io B :=
  match m with
  | (tr, Return a) => let (tr', r) := k a in (tr ++ tr', r)
  | (tr, Raise e) => (tr, Raise e)
  end.

#[global] Instance io_ret : MRet io := @ret.
#[global] Instance io_bind : MBind io := fun A B k m => bind m k.

(** [try: m except Exception as e: h e] *)
Definition try_except {A} (m : io A) (h : exn -> io A) : io A :=
  match m with
  | (tr, Return a) => (tr, Return a)
  | (tr, Raise e) => let (tr', r) := h e in (tr ++ tr', r)
  end.

Definition lift {A} (o : outcome A) : io A := ([], o).

(** [print(s, end=e, flush=True)] *)
Definition print (s e : string) : io unit := ([Stdout (s +:+ e)], Return tt).

(** [sys.stderr.write(s)] *)
Definition stderr_write (s : string) : io unit := ([Stderr s], Return tt).

Definition pull : io unit := ([Pull], Return tt).

(** The texts written to standard output, in order, and the number of chunks
    taken from the generation sequence. *)
Fixpoint stdout_of (tr : list event) : list string :=
  match tr with
  | [] => []
  | Stdout s :: tr' => s :: stdout_of tr'
  | _ :: tr' => stdout_of tr'
  end.

Fixpoint pulls_of (tr : list event) : nat :=
  match tr with
  | [] => 0
  | Pull :: tr' => S (pulls_of tr')
  | _ :: tr' => pulls_of tr'
  end.

(** ** Data model *)

(** One turn of a conversation: [{'role': ..., 'content': ...}]. *)
Record Message : Type := {
  role : string;
  content : string
}.

(** One element of the generation sequence.  [text] is always there; the
    other attributes vary with the runtime: [None] stands for a missing
    attribute ([hasattr] is false), and for [finish_reason] also for the value
    [None].  [token] may be present and hold [None]. *)
Record Chunk : Type := {
  text : string;
  finish_reason : option string;
  token : option (option Z);
  token_ids : option (list Z)
}.

(** A value of the [options] mapping, handed on to the runtime as it is. *)
Inductive optval : Type :=
| OptInt (z : Z)
| OptText (s : string)
| OptJson (repr : string).

(** The [options] mapping of a request: [options.get('primer')] and the
    other keys. *)
Record Options : Type := {
  opt_primer : option string;
  opt_other : gmap string optval
}.

Definition no_options : Options := {| opt_primer := None; opt_other := ∅ |}.

(** The tokenizer, as far as the driver looks at it.  Attributes the code
    reads directly are plain fields ([None] is Python's [None]); attributes it
    probes with [hasattr] or [getattr(.., None)] are [None] when missing. *)
Record Tokenizer : Type := {
  eos_token : option string;
  bos_token : option string;
  unk_token : option string;
  pad_token : option string;
  (** [getattr(tokenizer, 'eod_token_id', None)] and its siblings *)
  eod_token_id : option Z;
  bos_token_id : option Z;
  unk_token_id : option Z;
  pad_token_id : option Z;
  (** [hasattr(tokenizer, 'eos_token_id')], then its value *)
  eos_token_id : option (option Z);
  vocab_size : Z;
  model_max_length : option Z;
  (** [getattr(tokenizer, 'chat_template', None)] *)
  chat_template : option string;
  (** [apply_chat_template(messages, add_generation_prompt=b, tokenize=False)] *)
  apply_chat_template : option (list Message -> bool -> outcome string);
  convert_tokens_to_ids : string -> option Z;
  special_tokens_map : option (gmap string string);
  added_tokens_encoder : option (gmap string Z)
}.

(** ** token_utils.py *)

(** [added_encoder[s]] appended when [s and s in added_encoder]. *)
Definition registered_id (added_encoder : gmap string Z) (s : option string)
  : list (option Z) :=
  match s with
  | Some str =>
      if bool_decide (str = "") then []
      else match added_encoder !! str with
           | Some id => [Some id]
           | None => []
           end
  | None => []
  end.

(** The list [end_token_ids] that [is_eod_token] builds (lines 27-57). *)
Definition end_token_ids (tokenizer : Tokenizer) : list (option Z) :=
  (match special_tokens_map tokenizer, added_tokens_encoder tokenizer with
   | Some special_map, Some added_encoder =>
       registered_id added_encoder (special_map !! "eos_token")
       ++ concat (map (fun key => registered_id added_encoder (special_map !! key))
                      ["eoi_token"])
   | _, _ => []
   end)
  ++ (match added_tokens_encoder tokenizer with
      | Some added_encoder =>
          concat (map (fun token_str =>
                         match added_encoder !! token_str with
                         | Some token_id => [Some token_id]
                         | None => []
                         end)
                      ["<end_of_turn>"])
      | None => []
      end)
  ++ (match eos_token_id tokenizer with
      | Some id => [id]
      | None => []
      end).

Definition is_eod_token (response : Chunk) (tokenizer : Tokenizer) : bool :=
  if bool_decide (finish_reason response = Some "stop") then true
  else match token response with
       | Some tok =>
           if bool_decide (tok ∈ end_token_ids tokenizer) then true else false
       | None => false
       end.

(** A token with its id, and an entry of the [special_tokens] mapping. *)
Record TokenRef : Type := {
  tok_text : string;
  tok_id : option Z
}.

Inductive SpecialTokenEntry : Type :=
| SingleToken (t : TokenRef)
| PairToken (start_tok end_tok : TokenRef).

Definition standard_tokens (tokenizer : Tokenizer) : list (string * option string) :=
  [("eod", eos_token tokenizer);
   ("bos", bos_token tokenizer);
   ("unk", unk_token tokenizer);
   ("pad", pad_token tokenizer)].

(** [getattr(tokenizer, f"{name}_token_id", None)] for the names of
    [standard_tokens]. *)
Definition getattr_token_id (tokenizer : Tokenizer) (name : string) : option Z :=
  if bool_decide (name = "eod") then eod_token_id tokenizer
  else if bool_decide (name = "bos") then bos_token_id tokenizer
  else if bool_decide (name = "unk") then unk_token_id tokenizer
  else if bool_decide (name = "pad") then pad_token_id tokenizer
  else None.

Definition pair_tokens : list (string * (string * string)) :=
  [("system", ("<|system|>", "<|/system|>"));
   ("user", ("<|user|>", "<|/user|>"));
   ("assistant", ("<|assistant|>", "<|/assistant|>"));
   ("code", ("<|code_start|>", "<|code_end|>"));
   ("python", ("<|python|>", "<|/python|>"));
   ("javascript", ("<|javascript|>", "<|/javascript|>"));
   ("bash", ("<|bash|>", "<|/bash|>"));
   ("quote", ("<|quote|>", "<|/quote|>"));
   ("ref", ("<|ref|>", "<|/ref|>"));
   ("citation", ("<|citation|>", "<|/citation|>"));
   ("table", ("<|table|>", "<|/table|>"));
   ("heading", ("<|heading|>", "<|/heading|>"));
   ("image", ("<|image|>", "<|/image|>"));
   ("audio", ("<|audio|>", "<|/audio|>"));
   ("video", ("<|video|>", "<|/video|>"));
   ("tool_call", ("<|tool_call|>", "<|/tool_call|>"));
   ("function", ("<|function|>", "<|/function|>"));
   ("api", ("<|api|>", "<|/api|>"));
   ("search", ("<|search|>", "<|/search|>"));
   ("knowledge", ("<|knowledge|>", "<|/knowledge|>"));
   ("context", ("<|context|>", "<|/context|>"));
   ("thinking", ("<|thinking|>", "</thinking>"));
   ("reasoning", ("<|reasoning|>", "<|/reasoning|>"));
   ("scratchpad", ("<|scratchpad|>", "<|/scratchpad|>"));
   ("analysis", ("<|analysis|>", "<|/analysis|>"));
   ("summary", ("<|summary|>", "<|/summary|>"));
   ("explanation", ("<|explanation|>", "<|/explanation|>"))].

Definition single_tokens : list (string * string) :=
  [("fim_prefix", "<|fim_prefix|>");
   ("fim_middle", "<|fim_middle|>");
   ("fim_suffix", "<|fim_suffix|>");
   ("list_item", "<|list_item|>");
   ("vision", "<|vision|>");
   ("code_inline", "`");
   ("code_block_start", "```");
   ("code_block_end", "```")].

(** The bodies of the three loops of [get_special_tokens]. *)
Definition add_standard (tokenizer : Tokenizer)
    (special_tokens : gmap string SpecialTokenEntry)
    (item : string * option string) : gmap string SpecialTokenEntry :=
  let (name, tok) := item in
  match tok with
  | Some tok_str =>
      match getattr_token_id tokenizer name with
      | Some token_id =>
          <[name := SingleToken {| tok_text := tok_str; tok_id := Some token_id |}]>
            special_tokens
      | None => special_tokens
      end
  | None => special_tokens
  end.

Definition add_pair (tokenizer : Tokenizer)
    (special_tokens : gmap string SpecialTokenEntry)
    (item : string * (string * string)) : gmap string SpecialTokenEntry :=
  let '(name, (start_token, end_token)) := item in
  let start_id := convert_tokens_to_ids tokenizer start_token in
  let end_id := convert_tokens_to_ids tokenizer end_token in
  if bool_decide (start_id ≠ unk_token_id tokenizer)
     && bool_decide (end_id ≠ unk_token_id tokenizer)
  then <[name := PairToken {| tok_text := start_token; tok_id := start_id |}
                           {| tok_text := end_token; tok_id := end_id |}]>
         special_tokens
  else special_tokens.

Definition add_single (tokenizer : Tokenizer)
    (special_tokens : gmap string SpecialTokenEntry)
    (item : string * string) : gmap string SpecialTokenEntry :=
  let (name, token_text) := item in
  let token_id := convert_tokens_to_ids tokenizer token_text in
  if bool_decide (token_id ≠ unk_token_id tokenizer)
  then <[name := SingleToken {| tok_text := token_text; tok_id := token_id |}]>
         special_tokens
  else special_tokens.

Definition get_special_tokens (tokenizer : Tokenizer)
  : gmap string SpecialTokenEntry :=
  let special_tokens := foldl (add_standard tokenizer) ∅ (standard_tokens tokenizer) in
  let special_tokens := foldl (add_pair tokenizer) special_tokens pair_tokens in
  foldl (add_single tokenizer) special_tokens single_tokens.

(** A detected constraint value, and the sparse mapping of constraints. *)
Inductive restriction : Type :=
| RBool (b : bool)
| RInt (z : Z).

Record ChatTemplateInfo : Type := {
  template_string : option string;
  supported_roles : list string;
  preview : option string;
  constraints : gmap string restriction
}.

(** Whether [apply_chat_template(...)] returned without raising. *)
Definition succeeds {A} (o : outcome A) : bool :=
  match o with Return _ => true | Raise _ => false end.

Definition test_roles : list string :=
  ["system"; "user"; "assistant"; "tool"; "function"].

Definition get_chat_template_info (tokenizer : Tokenizer) : option ChatTemplateInfo :=
  match apply_chat_template tokenizer with
  | None => None
  | Some render =>
      let roles :=
        filter (fun r => succeeds (render [ {| role := r; content := "test" |} ] false) = true)
               test_roles in
      let sample_messages :=
        (if bool_decide ("system" ∈ roles)
         then [ {| role := "system"; content := "You are a helpful assistant." |} ] else [])
        ++ (if bool_decide ("user" ∈ roles)
            then [ {| role := "user"; content := "Hello!" |} ] else [])
        ++ (if bool_decide ("assistant" ∈ roles)
            then [ {| role := "assistant"; content := "Hi there!" |} ] else []) in
      Some {| template_string := chat_template tokenizer;
              supported_roles := roles;
              preview :=
                match roles with
                | [] => None
                | _ :: _ =>
                    match render sample_messages false with
                    | Return p => Some p
                    | Raise e => Some ("Preview error: " +:+ exn_str e)
                    end
                end;
              constraints := ∅ |}
  end.

Record Features : Type := {
  feat_apply_chat_template : bool;
  feat_vocab_size : Z;
  feat_model_max_length : option Z;
  feat_chat_template : option ChatTemplateInfo
}.

Definition get_tokenizer_features (tokenizer : Tokenizer) : Features :=
  {| feat_apply_chat_template := bool_decide (is_Some (apply_chat_template tokenizer));
     feat_vocab_size := vocab_size tokenizer;
     feat_model_max_length := model_max_length tokenizer;
     feat_chat_template := get_chat_template_info tokenizer |}.

Record Capabilities : Type := {
  methods : list string;
  special_tokens : gmap string SpecialTokenEntry;
  features : Features
}.

Definition get_capabilities (tokenizer : Tokenizer) : Capabilities :=
  let methods := ["capabilities"; "completion"; "format_test"] in
  let methods :=
    match apply_chat_template tokenizer with
    | Some _ => methods ++ ["chat"]
    | None => methods
    end in
  {| methods := methods;
     special_tokens := get_special_tokens tokenizer;
     features := get_tokenizer_features tokenizer |}.

(** ** chat_template_constraints.py *)

Record TestPattern : Type := {
  pattern_name : string;
  pattern_messages : list Message
}.

Definition msg (r c : string) : Message := {| role := r; content := c |}.

Definition _get_test_patterns : list TestPattern :=
  [ {| pattern_name := "basic";
       pattern_messages := [msg "user" "Hello"] |};
    {| pattern_name := "with-system";
       pattern_messages := [msg "system" "You are a helpful assistant.";
                            msg "user" "Hello"] |};
    {| pattern_name := "multi-system";
       pattern_messages := [msg "system" "First system message.";
                            msg "system" "Second system message.";
                            msg "user" "Hello"] |};
    {| pattern_name := "consecutive-user";
       pattern_messages := [msg "user" "First question";
                            msg "user" "Second question"] |};
    {| pattern_name := "assistant-last";
       pattern_messages := [msg "user" "Hello";
                            msg "assistant" "Hi there!"] |};
    {| pattern_name := "alternating";
       pattern_messages := [msg "user" "Question 1";
                            msg "assistant" "Answer 1";
                            msg "user" "Question 2"] |};
    {| pattern_name := "empty-message";
       pattern_messages := [msg "user" ""] |};
    {| pattern_name := "system-middle";
       pattern_messages := [msg "user" "First";
                            msg "system" "System in middle";
                            msg "user" "Second"] |} ].

(** [{'success': True}] or [{'error': str(e)}] *)
Inductive TestResult : Type :=
| Success
| Error (msg : string).

(** [r and 'error' in r] for [r = test_results.get(name)] *)
Definition has_error (r : option TestResult) : bool :=
  match r with
  | Some (Error _) => true
  | _ => false
  end.

Definition _infer_restrictions_from_results (test_results : gmap string TestResult)
  : option (gmap string restriction) :=
  let restrictions : gmap string restriction := ∅ in
  let with_system := test_results !! "with-system" in
  let multi_system := test_results !! "multi-system" in
  let restrictions :=
    if has_error with_system then
      <["max_system_messages" := RInt 0%Z]> restrictions
    else if has_error multi_system then
      <["max_system_messages" := RInt 1%Z]>
        (<["single_system_at_start" := RBool true]> restrictions)
    else restrictions in
  let consecutive_user := test_results !! "consecutive-user" in
  let restrictions :=
    if has_error consecutive_user
    then <["alternating_turns" := RBool true]> restrictions else restrictions in
  let assistant_last := test_results !! "assistant-last" in
  let restrictions :=
    if has_error assistant_last
    then <["requires_user_last" := RBool true]> restrictions else restrictions in
  let empty_message := test_results !! "empty-message" in
  let restrictions :=
    if has_error empty_message
    then <["allow_empty_messages" := RBool false]> restrictions else restrictions in
  if bool_decide (restrictions = ∅) then None else Some restrictions.

(** The loop of [detect_chat_restrictions]: one render per pattern, the
    exception of a pattern recorded under its name. *)
Definition run_pattern (render : list Message -> bool -> outcome string)
    (test_results : gmap string TestResult) (pattern : TestPattern)
  : gmap string TestResult :=
  match render (pattern_messages pattern) false with
  | Return _ => <[pattern_name pattern := Success]> test_results
  | Raise e => <[pattern_name pattern := Error (exn_str e)]> test_results
  end.

Definition detect_chat_restrictions (tokenizer : Tokenizer)
  : option (gmap string restriction) :=
  match apply_chat_template tokenizer with
  | None => None
  | Some render =>
      let test_results := foldl (run_pattern render) ∅ _get_test_patterns in
      _infer_restrictions_from_results test_results
  end.

(** ** __main__.py *)

(** A request object, with the fields typed as the protocol gives them;
    [None] is a missing key or a JSON [null]. *)
Record Request : Type := {
  req_method : option string;
  req_messages : option (list Message);
  req_primer : option string;
  req_prompt : option string;
  req_options : option Options
}.

(** What [json.loads] returns: [null], an object, or another JSON value
    (array, string, number, boolean), of which the loop sees the name of its
    Python type only ([list], [str], [int], [float], [bool]). *)
Inductive jsonval : Type :=
| JNull
| JObject (req : Request)
| JOther (type_name : string).

(** The text of the [AttributeError] of [req.get] on a value that is no
    dictionary. *)
Definition no_get (type_name : string) : exn :=
  Exception ("'" +:+ type_name +:+ "' object has no attribute 'get'").

(** The dictionary [handle_format_test] prints. *)
Record FormatResult : Type := {
  formatted_prompt : option string;
  template_applied : bool;
  model_specific_processing : option (list Message);
  error : option string
}.

(** The module-level state of [__main__]: the loaded tokenizer, the
    generation sequence of the runtime for a prompt and its options (the
    chunks it yields and the exception that ends it, if any), and the [json]
    functions.  [json_loads] is [None] on a [JSONDecodeError]. *)
Record Runtime : Type := {
  tokenizer : Tokenizer;
  stream_generate : string -> Options -> list Chunk * option exn;
  json_loads : string -> option jsonval;
  json_dumps_capabilities : Capabilities -> string;
  json_dumps_result : FormatResult -> string
}.

(** [json.loads(text)]: no JSON parser accepts the empty document. *)
Definition loads (rt : Runtime) (text : string) : option jsonval :=
  if bool_decide (text = "") then None else json_loads rt text.

(** The standard input still to be read: the lines [readline()] will
    return, each with its line end; after the last one it returns [''].
    The result is the request and the input that is left. *)
Fixpoint read_loop (rt : Runtime) (lines : list string) (stdin : list string)
  : jsonval * list string :=
  match stdin with
  | [] =>
      match loads rt (str_concat lines) with
      | Some data => (data, [])
      | None => (JNull, [])
      end
  | line :: rest =>
      if bool_decide (line = "") then
        match loads rt (str_concat lines) with
        | Some data => (data, rest)
        | None => (JNull, rest)
        end
      else
        let lines := lines ++ [line] in
        match loads rt (str_concat lines) with
        | Some data => (data, rest)
        | None => read_loop rt lines rest
        end
  end.

Definition read (rt : Runtime) (stdin : list string) : jsonval * list string :=
  read_loop rt [] stdin.

Definition supports_chat_template (rt : Runtime) : bool :=
  bool_decide (is_Some (apply_chat_template (tokenizer rt)))
  && bool_decide (is_Some (chat_template (tokenizer rt))).

(** [capabilities = get_capabilities(tokenizer)], computed at start-up. *)
Definition capabilities (rt : Runtime) : Capabilities :=
  get_capabilities (tokenizer rt).

Definition handle_capabilities (rt : Runtime) : io unit :=
  print (json_dumps_capabilities rt (capabilities rt)) NUL.

(** The loop body of [generate_merged_prompt]. *)
Definition extend_parts (prompt_parts : list string) (m : Message) : list string :=
  if bool_decide (role m = "system") then
    prompt_parts ++ ["<!-- begin of SYSTEM -->";
                     str_strip (content m);
                     "<!-- end of SYSTEM -->"]
  else
    prompt_parts ++ ["<!-- begin of " +:+ role m +:+ " -->";
                     str_strip (content m);
                     "<!-- end of " +:+ role m +:+ " -->"].

Definition generate_merged_prompt (messages : list Message) : string :=
  let prompt_parts := foldl extend_parts [] messages in
  str_join LF prompt_parts.

(** [s.split(sep)]: an empty separator is a [ValueError]. *)
Definition str_split (s sep : string) : outcome (list string) :=
  if bool_decide (sep = "") then Raise (Exception "empty separator")
  else Return (map of_chars (Seq.split (chars sep) (chars s))).

(** [primer.join(prompt.split(primer)[0:-1]) + primer], the expression of
    lines 87 and 139. *)
Definition primer_splice (prompt primer : string) : outcome string :=
  match str_split prompt primer with
  | Return parts => Return (str_join primer (removelast parts) +:+ primer)
  | Raise e => Raise e
  end.

(** The [for] loop of [generate_text] over the chunks still to come. *)
Fixpoint stream_loop (rt : Runtime) (eos_detected : bool)
    (chunks : list Chunk) (failure : option exn) : io bool :=
  match chunks with
  | [] =>
      match failure with
      | Some e => raise e
      | None => ret eos_detected
      end
  | response :: rest =>
      pull;;
      if is_eod_token response (tokenizer rt) then
        print LF NUL;; ret true
      else
        (if negb eos_detected
         then print (str_remove_nul (text response)) ""
         else ret tt);;
        stream_loop rt eos_detected rest failure
  end.

Definition default_options : gmap string optval :=
  {[ "max_tokens" := OptInt 1000%Z ]}.

(** [{**default_options, **options}] *)
Definition final_options (options : Options) : Options :=
  {| opt_primer := opt_primer options;
     opt_other := opt_other options ∪ default_options |}.

Definition generate_text (rt : Runtime) (prompt : string) (options : Options)
  : io unit :=
  stderr_write ("--- prompt" +:+ LF +:+ prompt +:+ LF);;
  let (chunks, failure) := stream_generate rt prompt (final_options options) in
  eos_detected ← stream_loop rt false chunks failure;
  if negb eos_detected then print LF NUL else ret tt.

Definition assistant_turn (primer : string) : Message :=
  {| role := "assistant"; content := primer |}.

(** The [try] block of [handle_format_test]: the fields of [result] at its
    end, or at the exception.  With the messages and the primer typed as
    above, nothing in the fallback branch raises. *)
Definition format_test_body (rt : Runtime) (messages : list Message)
    (options : Options) : FormatResult :=
  let primer := opt_primer options in
  if supports_chat_template rt then
    let messages' :=
      match primer with
      | Some p => messages ++ [assistant_turn p]
      | None => messages
      end in
    let add_generation_prompt :=
      match primer with Some _ => false | None => true end in
    let rendered :=
      match apply_chat_template (tokenizer rt) with
      | Some render => render messages' add_generation_prompt
      | None => Raise (Exception "apply_chat_template")
      end in
    let spliced :=
      match rendered, primer with
      | Return prompt, Some p => primer_splice prompt p
      | r, _ => r
      end in
    match spliced with
    | Return prompt =>
        {| formatted_prompt := Some prompt;
           template_applied := true;
           model_specific_processing := Some messages';
           error := None |}
    | Raise e =>
        {| formatted_prompt := None;
           template_applied := false;
           model_specific_processing := Some messages';
           error := Some (exn_str e) |}
    end
  else
    let prompt := generate_merged_prompt messages in
    let prompt :=
      match primer with
      | Some p => prompt +:+ p
      | None => prompt
      end in
    {| formatted_prompt := Some prompt;
       template_applied := false;
       model_specific_processing := None;
       error := None |}.

Definition handle_format_test (rt : Runtime) (messages : list Message)
    (options : Options) : io unit :=
  print (json_dumps_result rt (format_test_body rt messages options)) NUL.

Definition handle_chat (rt : Runtime) (messages : list Message)
    (primer : option string) (options : Options) : io unit :=
  if negb (supports_chat_template rt) then
    let prompt := generate_merged_prompt messages in
    match primer with
    | Some p =>
        print p "";;
        generate_text rt (prompt +:+ p) options
    | None => generate_text rt prompt options
    end
  else
    let messages' :=
      match primer with
      | Some p => messages ++ [assistant_turn p]
      | None => messages
      end in
    let add_generation_prompt :=
      match primer with Some _ => false | None => true end in
    prompt ← lift (match apply_chat_template (tokenizer rt) with
                   | Some render => render messages' add_generation_prompt
                   | None => Raise (Exception "apply_chat_template")
                   end);
    match primer with
    | Some p =>
        prompt ← lift (primer_splice prompt p);
        print p "";;
        generate_text rt prompt options
    | None => generate_text rt prompt options
    end.

Definition handle_completion (rt : Runtime) (prompt : string)
    (options : Options) : io unit :=
  generate_text rt prompt options.

(** [req.get('options', {})], then [if options is None: options = {}] *)
Definition options_of (req : Request) : Options :=
  match req_options req with
  | Some o => o
  | None => no_options
  end.

(** [print('\n', end='\0', flush=True)] after a message on standard error *)
Definition reject (diagnostic : string) : io unit :=
  stderr_write diagnostic;; print LF NUL.

(** The [try] block of [main] for a request with a method. *)
Definition dispatch (rt : Runtime) (method : string) (req : Request) : io unit :=
  if bool_decide (method = "capabilities") then
    handle_capabilities rt
  else if bool_decide (method = "format_test") then
    match req_messages req with
    | Some (m :: ms) => handle_format_test rt (m :: ms) (options_of req)
    | _ => reject ("Error: 'messages' field is required for format_test method" +:+ LF)
    end
  else if bool_decide (method = "chat") then
    match req_messages req with
    | Some (m :: ms) => handle_chat rt (m :: ms) (req_primer req) (options_of req)
    | _ => reject ("Error: 'messages' field is required for chat method" +:+ LF)
    end
  else if bool_decide (method = "completion") then
    match req_prompt req with
    | Some (String c p) => handle_completion rt (String c p) (options_of req)
    | _ => reject ("Error: 'prompt' field is required for completion method" +:+ LF)
    end
  else
    reject ("Error: Unknown method '" +:+ method +:+ "'" +:+ LF).

(** One turn of the [while] loop of [main], for a request object. *)
Definition serve (rt : Runtime) (req : Request) : list event :=
  match req_method req with
  | Some (String c m) =>
      fst (try_except (dispatch rt (String c m) req)
             (fun e => reject ("Error processing request: " +:+ exn_str e +:+ LF)))
  | _ => fst (reject ("Error: 'method' field is required" +:+ LF))
  end.

(** How the process ends: the loop is left at the end of the input, or an
    exception escapes [main]. *)
Inductive exit : Type :=
| Exited
| Crashed (e : exn)
| Unfinished.

Fixpoint main_loop (fuel : nat) (rt : Runtime) (stdin : list string)
  : list event * exit :=
  match fuel with
  | 0 => ([], Unfinished)
  | S fuel' =>
      match read rt stdin with
      | (JNull, _) => ([], Exited)
      | (JOther type_name, _) => ([], Crashed (no_get type_name))
      | (JObject req, rest) =>
          let (tr, e) := main_loop fuel' rt rest in
          (serve rt req ++ tr, e)
      end
  end.

(** Every request takes at least one line of the input. *)
Definition main (rt : Runtime) (stdin : list string) : list event * exit :=
  main_loop (S (length stdin)) rt stdin.

(** ** The statements of the specification, in its words *)

(** The block of one message in the fallback serialization. *)
Definition fallback_label (m : Message) : string :=
  if bool_decide (role m = "system") then "SYSTEM" else role m.

(** The three lines of a block. *)
Definition fallback_lines (m : Message) : list string :=
  ["<!-- begin of " +:+ fallback_label m +:+ " -->";
   str_strip (content m);
   "<!-- end of " +:+ fallback_label m +:+ " -->"].

Definition fallback_block (m : Message) : string :=
  "<!-- begin of " +:+ fallback_label m +:+ " -->" +:+ LF
  +:+ str_strip (content m) +:+ LF
  +:+ "<!-- end of " +:+ fallback_label m +:+ " -->".

Definition fallback_serialization (messages : list Message) : string :=
  str_join LF (map fallback_block messages).

(** The prefix of [s] strictly before the last occurrence of [p], with [p]
    behind it. *)
Definition cut_at_last_occurrence (s p : string) : option string :=
  match str_rfind s p with
  | Some i => Some (str_upto s i +:+ p)
  | None => None
  end.

(** The same with the last cut of the left-to-right scan of [split]. *)
Definition str_scan_last (s p : string) : option nat :=
  Seq.scan_last (chars p) (chars s).

Definition cut_at_last_split (s p : string) : option string :=
  match str_scan_last s p with
  | Some i => Some (str_upto s i +:+ p)
  | None => None
  end.

Definition str_no_overlap (p s : string) : Prop :=
  Seq.no_overlap (chars p) (chars s).

(** What the streaming loop does for a chunk that is no end marker: it
    takes the chunk and writes its text without NUL characters. *)
Definition written (c : Chunk) : string := str_remove_nul (text c).

Definition chunk_events (c : Chunk) : list event := [Pull; Stdout (written c)].

(** A request the loop turns down before a handler runs: no method, a
    method that is none of the four, or a required field that is missing or
    empty. *)
Definition known_methods : list string :=
  ["capabilities"; "format_test"; "chat"; "completion"].

Definition absent_str (o : option string) : Prop := o = None \/ o = Some "".

Definition absent_messages (o : option (list Message)) : Prop :=
  o = None \/ o = Some [].

Inductive malformed (req : Request) : Prop :=
| missing_method :
    absent_str (req_method req) -> malformed req
| unknown_method m :
    req_method req = Some m -> m <> "" -> m ∉ known_methods -> malformed req
| missing_messages m :
    req_method req = Some m -> m = "format_test" \/ m = "chat" ->
    absent_messages (req_messages req) -> malformed req
| missing_prompt :
    req_method req = Some "completion" -> absent_str (req_prompt req) ->
    malformed req.

(** [tr] in front of the trace of a run. *)
Definition after (tr : list event) (run : list event * exit) : list event * exit :=
  (tr ++ fst run, snd run).

(** ** Sample tokenizers and runtimes *)

(** The mock tokenizer of test_api_spec.py ([setUp]); a [MagicMock] has every
    attribute, here only the configured ones count. *)
Definition mock_ids : gmap string Z :=
  list_to_map [("</s>", 2%Z); ("<|endoftext|>", 50256%Z);
               ("<|system|>", 151645%Z); ("<|/system|>", 151647%Z);
               ("<|user|>", 151646%Z); ("<|/user|>", 151648%Z);
               ("<|assistant|>", 151649%Z); ("<|/assistant|>", 151650%Z)].

(** A template in the ChatML manner: one tagged block per message, the
    content trimmed, the assistant tag opened when a generation prompt is
    asked for. *)
Definition render_block (m : Message) : string :=
  "<|" +:+ role m +:+ "|>" +:+ str_strip (content m) +:+ "<|end|>".

Definition sample_render (messages : list Message) (add_generation_prompt : bool)
  : outcome string :=
  Return (str_concat (map render_block messages)
          +:+ (if add_generation_prompt then "<|assistant|>" else "")).

Definition mock_tokenizer : Tokenizer :=
  {| eos_token := Some "</s>";
     bos_token := Some "<s>";
     unk_token := Some "<unk>";
     pad_token := None;
     eod_token_id := None;
     bos_token_id := Some 1%Z;
     unk_token_id := Some 0%Z;
     pad_token_id := None;
     eos_token_id := Some (Some 2%Z);
     vocab_size := 151936%Z;
     model_max_length := Some 8192%Z;
     chat_template := Some "chatml";
     apply_chat_template := Some sample_render;
     convert_tokens_to_ids := fun t => Some (default 0%Z (mock_ids !! t));
     special_tokens_map := None;
     added_tokens_encoder := None |}.

(** The same tokenizer with the rendering function but no template
    assigned, and with no rendering function at all. *)
Definition untemplated_tokenizer : Tokenizer :=
  {| eos_token := Some "</s>";
     bos_token := Some "<s>";
     unk_token := Some "<unk>";
     pad_token := None;
     eod_token_id := None;
     bos_token_id := Some 1%Z;
     unk_token_id := Some 0%Z;
     pad_token_id := None;
     eos_token_id := Some (Some 2%Z);
     vocab_size := 151936%Z;
     model_max_length := Some 8192%Z;
     chat_template := None;
     apply_chat_template := Some (fun _ _ => Raise (Exception "no chat template"));
     convert_tokens_to_ids := fun t => Some (default 0%Z (mock_ids !! t));
     special_tokens_map := None;
     added_tokens_encoder := None |}.

Definition plain_tokenizer : Tokenizer :=
  {| eos_token := Some "</s>";
     bos_token := Some "<s>";
     unk_token := Some "<unk>";
     pad_token := None;
     eod_token_id := None;
     bos_token_id := Some 1%Z;
     unk_token_id := Some 0%Z;
     pad_token_id := None;
     eos_token_id := Some (Some 2%Z);
     vocab_size := 151936%Z;
     model_max_length := Some 8192%Z;
     chat_template := None;
     apply_chat_template := None;
     convert_tokens_to_ids := fun t => Some (default 0%Z (mock_ids !! t));
     special_tokens_map := None;
     added_tokens_encoder := None |}.

(** Chunks as the runtime delivers them. *)
Definition text_chunk (s : string) (id : Z) : Chunk :=
  {| text := s; finish_reason := None; token := Some (Some id); token_ids := None |}.

Definition stop_chunk : Chunk :=
  {| text := ""; finish_reason := Some "stop"; token := Some (Some 2%Z);
     token_ids := None |}.

(** A chunk that carries only a collection of token ids. *)
Definition ids_only_chunk : Chunk :=
  {| text := ""; finish_reason := None; token := None;
     token_ids := Some [1%Z; 2%Z; 3%Z] |}.

(** The request lines of the examples and a stand-in for [json.loads] that
    decodes these lines (alone in the buffer) and rejects every other text. *)
Definition dq : string := String "034"%char EmptyString.

Definition capabilities_line : string :=
  "{" +:+ dq +:+ "method" +:+ dq +:+ ": " +:+ dq +:+ "capabilities" +:+ dq +:+ "}" +:+ LF.

Definition generate_line : string :=
  "{" +:+ dq +:+ "method" +:+ dq +:+ ": " +:+ dq +:+ "generate" +:+ dq +:+ "}" +:+ LF.

Definition completion_line : string :=
  "{" +:+ dq +:+ "method" +:+ dq +:+ ": " +:+ dq +:+ "completion" +:+ dq +:+ ", "
  +:+ dq +:+ "prompt" +:+ dq +:+ ": " +:+ dq +:+ "Once" +:+ dq +:+ "}" +:+ LF.

Definition broken_line : string := "{not json}" +:+ LF.

Definition method_only (m : string) : Request :=
  {| req_method := Some m; req_messages := None; req_primer := None;
     req_prompt := None; req_options := None |}.

Definition completion_request (p : string) : Request :=
  {| req_method := Some "completion"; req_messages := None; req_primer := None;
     req_prompt := Some p; req_options := None |}.

Definition sample_loads (s : string) : option jsonval :=
  if bool_decide (s = capabilities_line) then Some (JObject (method_only "capabilities"))
  else if bool_decide (s = generate_line) then Some (JObject (method_only "generate"))
  else if bool_decide (s = completion_line) then Some (JObject (completion_request "Once"))
  else None.

Definition sample_runtime (tok : Tokenizer) (gen : list Chunk * option exn) : Runtime :=
  {| tokenizer := tok;
     stream_generate := fun _ _ => gen;
     json_loads := sample_loads;
     json_dumps_capabilities := fun c => "{methods: " +:+ str_join "," (methods c) +:+ "}";
     json_dumps_result := fun r => default "null" (formatted_prompt r) |}.

(** The entry a candidate of each catalogue yields, if any, and its
    recording under the name of the candidate. *)
Definition standard_entry (tokenizer : Tokenizer) (item : string * option string)
  : option SpecialTokenEntry :=
  match snd item with
  | Some tok_str =>
      match getattr_token_id tokenizer (fst item) with
      | Some token_id =>
          Some (SingleToken {| tok_text := tok_str; tok_id := Some token_id |})
      | None => None
      end
  | None => None
  end.

Definition pair_entry (tokenizer : Tokenizer) (item : string * (string * string))
  : option SpecialTokenEntry :=
  let start_id := convert_tokens_to_ids tokenizer (fst (snd item)) in
  let end_id := convert_tokens_to_ids tokenizer (snd (snd item)) in
  if bool_decide (start_id ≠ unk_token_id tokenizer)
     && bool_decide (end_id ≠ unk_token_id tokenizer)
  then Some (PairToken {| tok_text := fst (snd item); tok_id := start_id |}
                       {| tok_text := snd (snd item); tok_id := end_id |})
  else None.

Definition single_entry (tokenizer : Tokenizer) (item : string * string)
  : option SpecialTokenEntry :=
  let token_id := convert_tokens_to_ids tokenizer (snd item) in
  if bool_decide (token_id ≠ unk_token_id tokenizer)
  then Some (SingleToken {| tok_text := snd item; tok_id := token_id |})
  else None.

Definition record_entry {X} (entry : string * X -> option SpecialTokenEntry)
    (special_tokens : gmap string SpecialTokenEntry) (item : string * X)
  : gmap string SpecialTokenEntry :=
  match entry item with
  | Some v => <[fst item := v]> special_tokens
  | None => special_tokens
  end.

(** A probe pattern on which the renderer raises. *)
Definition probe_fails (render : list Message -> bool -> outcome string)
    (pattern : TestPattern) : Prop :=
  succeeds (render (pattern_messages pattern) false) = false.

Definition probe_succeeds (render : list Message -> bool -> outcome string)
    (pattern : TestPattern) : Prop :=
  succeeds (render (pattern_messages pattern) false) = true.

(** ** Further notions used by the properties below *)

(** The number of NUL characters a trace puts on standard output. *)
Definition nul_count (tr : list event) : nat :=
  count_nul (str_concat (stdout_of tr)).

(** A tokenizer in the manner of Gemma: the end-of-sequence and the
    end-of-turn markers are registered added tokens. *)
Definition gemma_tokenizer : Tokenizer :=
  {| eos_token := Some "<eos>";
     bos_token := Some "<bos>";
     unk_token := Some "<unk>";
     pad_token := Some "<pad>";
     eod_token_id := None;
     bos_token_id := Some 2%Z;
     unk_token_id := Some 3%Z;
     pad_token_id := Some 0%Z;
     eos_token_id := Some (Some 1%Z);
     vocab_size := 262144%Z;
     model_max_length := None;
     chat_template := Some "gemma";
     apply_chat_template := Some sample_render;
     convert_tokens_to_ids := fun _ => Some 3%Z;
     special_tokens_map :=
       Some (list_to_map [("eos_token", "<eos>"); ("eoi_token", "<end_of_image>")]);
     added_tokens_encoder :=
       Some (list_to_map [("<eos>", 1%Z); ("<end_of_turn>", 106%Z);
                          ("<end_of_image>", 256000%Z)]) |}.

(** A chunk whose runtime reports why it stopped and the last token. *)
Definition length_chunk (id : Z) : Chunk :=
  {| text := ""; finish_reason := Some "length"; token := Some (Some id);
     token_ids := None |}.

(** A runtime whose JSON encoder, like [json.dumps], never puts a NUL
    character into its output. *)
Definition escaping_runtime (tok : Tokenizer) (gen : list Chunk * option exn) : Runtime :=
  {| tokenizer := tok;
     stream_generate := fun _ _ => gen;
     json_loads := sample_loads;
     json_dumps_capabilities :=
       fun c => str_remove_nul ("{methods: " +:+ str_join "," (methods c) +:+ "}");
     json_dumps_result :=
       fun r => str_remove_nul (default "null" (formatted_prompt r)) |}.

Definition chat_request (messages : list Message) (primer : option string) : Request :=
  {| req_method := Some "chat"; req_messages := Some messages; req_primer := primer;
     req_prompt := None; req_options := None |}.


(** The names under which [get_special_tokens] can record an entry. *)
Definition standard_names_list : list string := ["eod"; "bos"; "unk"; "pad"].

Definition catalogue_names : list string :=
  standard_names_list ++ map fst pair_tokens ++ map fst single_tokens.

(** A renderer that knows the roles [tool] and [function] only. *)
Definition tool_render (messages : list Message) (add_generation_prompt : bool)
  : outcome string :=
  if forallb (fun m => String.eqb (role m) "tool" || String.eqb (role m) "function") messages
  then Return (str_concat (map render_block messages))
  else Raise (Exception "unsupported role").

Definition tool_tokenizer : Tokenizer :=
  {| eos_token := Some "</s>";
     bos_token := Some "<s>";
     unk_token := Some "<unk>";
     pad_token := None;
     eod_token_id := None;
     bos_token_id := Some 1%Z;
     unk_token_id := Some 0%Z;
     pad_token_id := None;
     eos_token_id := Some (Some 2%Z);
     vocab_size := 32000%Z;
     model_max_length := None;
     chat_template := Some "tools";
     apply_chat_template := Some tool_render;
     convert_tokens_to_ids := fun _ => Some 0%Z;
     special_tokens_map := None;
     added_tokens_encoder := None |}.

(** Whether the probe pattern of a given name raises with a renderer, and
    the constraint detected under a key, if any. *)
Definition probe_failed (render : list Message -> bool -> outcome string)
    (name : string) : bool :=
  existsb (fun p => String.eqb (pattern_name p) name
                    && negb (succeeds (render (pattern_messages p) false)))
          _get_test_patterns.

Definition detected (tokenizer : Tokenizer) (key : string) : option restriction :=
  match detect_chat_restrictions tokenizer with
  | Some restrictions => restrictions !! key
  | None => None
  end.

Definition restriction_keys : list string :=
  ["max_system_messages"; "single_system_at_start"; "alternating_turns";
   "requires_user_last"; "allow_empty_messages"].

(** The probe patterns a rule looks at. *)
Definition rule_patterns : list string :=
  ["with-system"; "multi-system"; "consecutive-user"; "assistant-last"; "empty-message"].

(** A template that takes one system message, at most, and wants the user
    and the assistant to take turns. *)
Fixpoint count_role (r : string) (messages : list Message) : nat :=
  match messages with
  | [] => 0
  | m :: rest => (if String.eqb (role m) r then 1 else 0) + count_role r rest
  end.

Fixpoint alternates (previous : string) (messages : list Message) : bool :=
  match messages with
  | [] => true
  | m :: rest =>
      if String.eqb (role m) "system" then alternates previous rest
      else negb (String.eqb (role m) previous) && alternates (role m) rest
  end.

Definition strict_render (messages : list Message) (add_generation_prompt : bool)
  : outcome string :=
  if 1 <? count_role "system" messages
  then Raise (Exception "only one system message is supported")
  else if alternates "assistant" messages
       then Return (str_concat (map render_block messages))
       else Raise (Exception "roles must alternate user/assistant").

Definition strict_tokenizer : Tokenizer :=
  {| eos_token := Some "</s>";
     bos_token := Some "<s>";
     unk_token := Some "<unk>";
     pad_token := None;
     eod_token_id := None;
     bos_token_id := Some 1%Z;
     unk_token_id := Some 0%Z;
     pad_token_id := None;
     eos_token_id := Some (Some 2%Z);
     vocab_size := 32000%Z;
     model_max_length := None;
     chat_template := Some "strict";
     apply_chat_template := Some strict_render;
     convert_tokens_to_ids := fun _ => Some 0%Z;
     special_tokens_map := None;
     added_tokens_encoder := None |}.

(** The same template with other texts for its exceptions. *)
Definition terse_render (messages : list Message) (add_generation_prompt : bool)
  : outcome string :=
  match strict_render messages add_generation_prompt with
  | Return s => Return s
  | Raise _ => Raise (Exception "template error")
  end.

Definition terse_tokenizer : Tokenizer :=
  {| eos_token := Some "</s>";
     bos_token := Some "<s>";
     unk_token := Some "<unk>";
     pad_token := None;
     eod_token_id := None;
     bos_token_id := Some 1%Z;
     unk_token_id := Some 0%Z;
     pad_token_id := None;
     eos_token_id := Some (Some 2%Z);
     vocab_size := 32000%Z;
     model_max_length := None;
     chat_template := Some "strict";
     apply_chat_template := Some terse_render;
     convert_tokens_to_ids := fun _ => Some 0%Z;
     special_tokens_map := None;
     added_tokens_encoder := None |}.

(** More request texts: a request spread over three lines, the document
    [null] and an array; and a stand-in for [json.loads] that knows them
    besides the lines of [sample_loads]. *)
Definition pretty_line_1 : string := "{" +:+ LF.
Definition pretty_line_2 : string :=
  "  " +:+ dq +:+ "method" +:+ dq +:+ ": " +:+ dq +:+ "capabilities" +:+ dq +:+ LF.
Definition pretty_line_3 : string := "}" +:+ LF.

Definition null_line : string := "null" +:+ LF.
Definition array_line : string := "[]" +:+ LF.

Definition session_loads (s : string) : option jsonval :=
  if bool_decide (s = pretty_line_1 +:+ pretty_line_2 +:+ pretty_line_3)
  then Some (JObject (method_only "capabilities"))
  else if bool_decide (s = null_line) then Some JNull
  else if bool_decide (s = array_line) then Some (JOther "list")
  else sample_loads s.

Definition session_runtime (tok : Tokenizer) (gen : list Chunk * option exn) : Runtime :=
  {| tokenizer := tok;
     stream_generate := fun _ _ => gen;
     json_loads := session_loads;
     json_dumps_capabilities :=
       fun c => str_remove_nul ("{methods: " +:+ str_join "," (methods c) +:+ "}");
     json_dumps_result :=
       fun r => str_remove_nul (default "null" (formatted_prompt r)) |}.

(* ===================================================================== *)
(** * Part II: properties                                                 *)
(* ===================================================================== *)

(** ** Occurrences, [find], [rfind] and [split] on sequences *)

Section SeqFacts.
Context {A : Type} `{EqDecision A}.
Import Seq.
Implicit Types p s : list A.

(** *** Prefix test *)

Lemma starts_with_spec p s :
  starts_with p s = true <-> exists post, s = p ++ post.
Proof.
  revert s; induction p as [|x p IH]; intros s; simpl.
  - split; [intros _; eexists; reflexivity | reflexivity].
  - destruct s as [|y s].
    + split; [discriminate | intros [post H]; discriminate].
    + rewrite andb_true_iff, bool_decide_eq_true, IH.
      split.
      * intros [-> [post ->]]. eexists; reflexivity.
      * intros [post H]. injection H as -> ->. split; [reflexivity | eexists; reflexivity].
Qed.

Lemma occurs_at_0 p s : occurs_at p s 0 <-> starts_with p s = true.
Proof.
  rewrite starts_with_spec. split.
  - intros (pre & post & -> & Hl). destruct pre; [|discriminate].
    eexists; reflexivity.
  - intros [post ->]. exists [], post. split; reflexivity.
Qed.

Lemma occurs_at_S p x s i : occurs_at p (x :: s) (S i) <-> occurs_at p s i.
Proof.
  split.
  - intros (pre & post & H & Hl). destruct pre as [|y pre]; [discriminate|].
    injection H as -> ->. injection Hl as <-. exists pre, post. split; reflexivity.
  - intros (pre & post & -> & <-). exists (x :: pre), post. split; reflexivity.
Qed.

Lemma occurs_at_nil p i : occurs_at p [] i -> p = [] /\ i = 0.
Proof.
  intros (pre & post & H & Hl). symmetry in H.
  apply app_eq_nil in H as [-> H]. apply app_eq_nil in H as [-> _].
  simpl in Hl. split; congruence.
Qed.

Lemma occurs_at_bound p s i : occurs_at p s i -> i + length p <= length s.
Proof.
  intros (pre & post & -> & <-). rewrite !length_app. lia.
Qed.

Lemma occurs_at_drop p s i k :
  occurs_at p s (k + i) -> occurs_at p (drop k s) i.
Proof.
  revert s; induction k as [|k IH]; intros s H; simpl in *.
  - rewrite drop_0. exact H.
  - destruct s as [|x s].
    + apply occurs_at_nil in H as [_ H]. discriminate.
    + simpl. apply IH. apply occurs_at_S in H. exact H.
Qed.

(** *** First occurrence *)

Lemma find_Some p s i :
  find p s = Some i ->
  occurs_at p s i /\ forall k, k < i -> ~ occurs_at p s k.
Proof.
  revert i; induction s as [|x s IH]; intros i; simpl.
  - destruct (starts_with p []) eqn:E; [|discriminate].
    intros [= <-]. split; [apply occurs_at_0; exact E | intros k Hk; lia].
  - destruct (starts_with p (x :: s)) eqn:E.
    + intros [= <-]. split; [apply occurs_at_0; exact E | intros k Hk; lia].
    + destruct (find p s) as [j|] eqn:F; [|discriminate].
      simpl. intros [= <-]. destruct (IH j eq_refl) as [Ho Hm]. split.
      * apply occurs_at_S. exact Ho.
      * intros [|k] Hk Hk'.
        -- apply occurs_at_0 in Hk'. congruence.
        -- apply occurs_at_S in Hk'. apply (Hm k); [lia | exact Hk'].
Qed.

Lemma find_None p s : find p s = None <-> ~ occurs p s.
Proof.
  induction s as [|x s IH]; simpl.
  - destruct (starts_with p []) eqn:E.
    + split; [discriminate|]. intros H. exfalso. apply H. exists 0.
      apply occurs_at_0. exact E.
    + split; [|reflexivity]. intros _ [i Hi].
      destruct (occurs_at_nil _ _ Hi) as [-> _]. discriminate.
  - destruct (starts_with p (x :: s)) eqn:E.
    + split; [discriminate|]. intros H. exfalso. apply H. exists 0.
      apply occurs_at_0. exact E.
    + destruct (find p s) as [j|] eqn:F; simpl.
      * split; [discriminate|]. intros H. exfalso. apply H.
        destruct (find_Some _ _ _ F) as [Ho _]. exists (S j).
        apply occurs_at_S. exact Ho.
      * split; [|reflexivity]. intros _ [[|i] Hi].
        -- apply occurs_at_0 in Hi. congruence.
        -- apply occurs_at_S in Hi. apply IH; [reflexivity | exists i; exact Hi].
Qed.

Lemma find_decompose p s i :
  find p s = Some i -> s = take i s ++ p ++ drop (i + length p) s.
Proof.
  intros H. destruct (find_Some _ _ _ H) as [(pre & post & -> & <-) _].
  rewrite take_app_length.
  rewrite <- (drop_drop _ (length p) (length pre)).
  rewrite drop_app_length, drop_app_length. reflexivity.
Qed.

(** *** Last occurrence *)

Lemma rfind_Some p s i :
  rfind p s = Some i ->
  occurs_at p s i /\ forall k, occurs_at p s k -> k <= i.
Proof.
  revert i; induction s as [|x s IH]; intros i; simpl.
  - destruct (starts_with p []) eqn:E; [|discriminate].
    intros [= <-]. split; [apply occurs_at_0; exact E|].
    intros k Hk. apply occurs_at_nil in Hk as [_ ->]. lia.
  - destruct (rfind p s) as [j|] eqn:R.
    + intros [= <-]. destruct (IH j eq_refl) as [Ho Hm]. split.
      * apply occurs_at_S. exact Ho.
      * intros [|k] Hk; [lia|]. apply occurs_at_S in Hk.
        specialize (Hm k Hk). lia.
    + destruct (starts_with p (x :: s)) eqn:E; [|discriminate].
      intros [= <-]. split; [apply occurs_at_0; exact E|].
      intros [|k] Hk; [lia|]. apply occurs_at_S in Hk. exfalso.
      clear IH E. revert k Hk. induction s as [|y s IHs]; intros k Hk; simpl in R.
      * apply occurs_at_nil in Hk as [-> _]. simpl in R. discriminate.
      * destruct (rfind p s) as [j|] eqn:R'; [discriminate|].
        destruct (starts_with p (y :: s)) eqn:E'; [discriminate|].
        destruct k as [|k].
        -- apply occurs_at_0 in Hk. congruence.
        -- apply occurs_at_S in Hk. apply (IHs eq_refl k Hk).
Qed.


Lemma rfind_complete p s k : occurs_at p s k -> exists r, rfind p s = Some r.
Proof.
  revert k; induction s as [|x s IH]; intros k Hk; simpl.
  - apply occurs_at_nil in Hk as [-> _]. simpl. eauto.
  - destruct (rfind p s) as [j|] eqn:R; [eauto|].
    destruct k as [|k].
    + apply occurs_at_0 in Hk. rewrite Hk. eauto.
    + apply occurs_at_S in Hk. destruct (IH k Hk) as [r Hr]. discriminate.
Qed.

Lemma occurs_at_take p s i : occurs_at p s i -> take (length p) (drop i s) = p.
Proof.
  intros (pre & post & -> & <-). rewrite drop_app_length.
  apply take_app_length.
Qed.

(** *** The scan of [split] *)

Lemma find_nil_pattern s : find [] s = Some 0.
Proof. destruct s; reflexivity. Qed.

Lemma find_in_nil p : p <> [] -> find p [] = None.
Proof. destruct p; [congruence | reflexivity]. Qed.

Lemma split_go_None n p s : find p s = None -> split_go n p s = [s].
Proof. intros H. destruct n; simpl; [reflexivity | rewrite H; reflexivity]. Qed.

Lemma scan_last_go_None n p s : find p s = None -> scan_last_go n p s = None.
Proof. intros H. destruct n; simpl; [reflexivity | rewrite H; reflexivity]. Qed.

Lemma join_cons p x l : l <> [] -> join p (x :: l) = x ++ p ++ join p l.
Proof. destruct l; [congruence | reflexivity]. Qed.

Lemma removelast_cons (x : list A) l : l <> [] -> removelast (x :: l) = x :: removelast l.
Proof. destruct l; [congruence | reflexivity]. Qed.

Lemma split_go_not_nil n p s : split_go n p s <> [].
Proof. destruct n; simpl; [discriminate | destruct (find p s); discriminate]. Qed.

(** With enough rounds, and at least one occurrence, all the pieces but the
    last one joined again are the part of [s] before the last cut, and
    behind that cut [p] does not occur again. *)
Lemma split_go_scan n p s i :
  p <> [] -> length s <= n -> find p s = Some i ->
  exists j,
    scan_last_go n p s = Some j
    /\ removelast (split_go n p s) <> []
    /\ join p (removelast (split_go n p s)) = take j s
    /\ occurs_at p s j
    /\ find p (drop (j + length p) s) = None.
Proof.
  intros Hp. revert s i. induction n as [|n IH]; intros s i Hn Hf.
  - destruct s; [|simpl in Hn; lia]. rewrite find_in_nil in Hf by assumption.
    discriminate.
  - simpl. rewrite Hf.
    destruct (find_Some _ _ _ Hf) as [Hocc _].
    pose proof (occurs_at_bound _ _ _ Hocc) as Hb.
    assert (Hlp : 0 < length p) by (destruct p; [congruence | simpl; lia]).
    set (s' := drop (i + length p) s).
    assert (Hs' : length s' <= n) by (unfold s'; rewrite length_drop; lia).
    destruct (find p s') as [i'|] eqn:Hf'.
    + destruct (IH s' i' Hs' Hf') as (j' & Hscan & Hne & Hjoin & Hocc' & Hlast).
      rewrite Hscan. exists (i + length p + j').
      assert (Hsp : split_go n p s' <> []) by apply split_go_not_nil.
      rewrite removelast_cons by assumption.
      split; [reflexivity|]. split; [discriminate|].
      split; [|split].
      * rewrite join_cons by assumption. rewrite Hjoin.
        rewrite <- (take_take_drop s (i + length p) j').
        rewrite <- (take_take_drop s i (length p)).
        rewrite (occurs_at_take _ _ _ Hocc). rewrite <- app_assoc. reflexivity.
      * destruct Hocc' as (pre' & post' & Hs'eq & Hl').
        exists (take i s ++ p ++ pre'), post'. split.
        -- rewrite (find_decompose _ _ _ Hf) at 1. fold s'. rewrite Hs'eq.
           rewrite <- !app_assoc. reflexivity.
        -- rewrite !length_app, length_take. lia.
      * replace (i + length p + j' + length p) with (i + length p + (j' + length p)) by lia.
        rewrite <- drop_drop. exact Hlast.
    + rewrite (scan_last_go_None _ _ _ Hf'), (split_go_None _ _ _ Hf').
      exists i. simpl. split; [reflexivity|]. split; [discriminate|].
      split; [reflexivity|]. split; [exact Hocc | exact Hf'].
Qed.

(** When occurrences do not overlap, the last cut of the scan is the last
    occurrence. *)
Lemma last_cut_is_rfind p s j :
  no_overlap p s -> occurs_at p s j -> find p (drop (j + length p) s) = None ->
  rfind p s = Some j.
Proof.
  intros Hno Hocc Hlast.
  destruct (rfind_complete _ _ _ Hocc) as [r Hr].
  destruct (rfind_Some _ _ _ Hr) as [Hor Hmax].
  pose proof (Hmax j Hocc) as Hle.
  destruct (decide (j = r)) as [->|Hne]; [exact Hr|].
  exfalso. assert (Hlt : j < r) by lia.
  pose proof (Hno j r Hocc Hor Hlt) as Hge.
  apply find_None in Hlast. apply Hlast.
  exists (r - (j + length p)). apply occurs_at_drop.
  replace (j + length p + (r - (j + length p))) with r by lia. exact Hor.
Qed.

End SeqFacts.

(** ** Strings as sequences of characters *)

Lemma of_chars_chars s : of_chars (chars s) = s.
Proof. apply string_of_list_ascii_of_string. Qed.

Lemma chars_of_chars l : chars (of_chars l) = l.
Proof. apply list_ascii_of_string_of_list_ascii. Qed.

Lemma str_app_cons c a b : String c a +:+ b = String c (a +:+ b).
Proof. reflexivity. Qed.

Lemma str_app_nil_l s : "" +:+ s = s.
Proof. reflexivity. Qed.

Lemma chars_app a b : chars (a +:+ b) = chars a ++ chars b.
Proof.
  induction a as [|c a IH]; [reflexivity|].
  rewrite str_app_cons. simpl. f_equal. exact IH.
Qed.

Lemma of_chars_app l k : of_chars (l ++ k) = of_chars l +:+ of_chars k.
Proof.
  induction l as [|c l IH]; [reflexivity|].
  simpl. rewrite str_app_cons. f_equal. exact IH.
Qed.

Lemma chars_inj a b : chars a = chars b -> a = b.
Proof. intros H. rewrite <- (of_chars_chars a), <- (of_chars_chars b), H. reflexivity. Qed.

Lemma chars_empty s : chars s = [] <-> s = "".
Proof. destruct s; simpl; split; intros; congruence. Qed.

Lemma str_app_nil_r s : s +:+ "" = s.
Proof.
  induction s as [|c s IH]; [reflexivity|].
  rewrite str_app_cons. f_equal. exact IH.
Qed.

Lemma str_app_assoc a b c : (a +:+ b) +:+ c = a +:+ b +:+ c.
Proof.
  induction a as [|x a IH]; [reflexivity|].
  rewrite !str_app_cons. f_equal. exact IH.
Qed.

Lemma str_join_chars sep parts :
  str_join sep (map of_chars parts) = of_chars (Seq.join (chars sep) parts).
Proof.
  induction parts as [|x rest IH]; [reflexivity|].
  destruct rest as [|y rest]; [reflexivity|].
  change (str_join sep (map of_chars (x :: y :: rest)))
    with (of_chars x +:+ sep +:+ str_join sep (map of_chars (y :: rest))).
  rewrite IH. change (Seq.join (chars sep) (x :: y :: rest))
    with (x ++ chars sep ++ Seq.join (chars sep) (y :: rest)).
  rewrite !of_chars_app, of_chars_chars. reflexivity.
Qed.

Lemma str_occurs_chars p s : str_occurs p s <-> Seq.occurs (chars p) (chars s).
Proof.
  split.
  - intros (pre & post & ->). exists (length (chars pre)), (chars pre), (chars post).
    rewrite !chars_app. split; reflexivity.
  - intros (i & pre & post & H & _). exists (of_chars pre), (of_chars post).
    apply chars_inj. rewrite !chars_app, !chars_of_chars. exact H.
Qed.

Lemma str_occurs_empty s : str_occurs "" s.
Proof. exists "", s. reflexivity. Qed.

Lemma removelast_map {A B} (f : A -> B) (l : list A) :
  removelast (map f l) = map f (removelast l).
Proof.
  induction l as [|x l IH]; [reflexivity|].
  destruct l as [|y l]; [reflexivity|].
  change (removelast (map f (x :: y :: l))) with (f x :: removelast (map f (y :: l))).
  rewrite IH. reflexivity.
Qed.

(** ** Primer splicing *)

Lemma primer_splice_unfold s p :
  p <> "" ->
  primer_splice s p =
  Return (of_chars (Seq.join (chars p)
                      (removelast (Seq.split (chars p) (chars s)))) +:+ p).
Proof.
  intros Hp. unfold primer_splice, str_split.
  rewrite bool_decide_eq_false_2 by assumption.
  rewrite removelast_map, str_join_chars. reflexivity.
Qed.

Lemma primer_splice_empty s : primer_splice s "" = Raise (Exception "empty separator").
Proof. reflexivity. Qed.

(** A primer that the text does not contain replaces the text. *)
Lemma primer_splice_absent s p : ~ str_occurs p s -> primer_splice s p = Return p.
Proof.
  intros Hno.
  assert (Hp : p <> "") by (intros ->; apply Hno, str_occurs_empty).
  rewrite primer_splice_unfold by assumption.
  rewrite str_occurs_chars in Hno. apply find_None in Hno.
  unfold Seq.split. rewrite (split_go_None _ _ _ Hno). reflexivity.
Qed.

(** A primer that the text contains: the text is cut at the last place the
    scan of [split] finds the primer; this is the last occurrence when the
    occurrences do not overlap. *)
Lemma primer_splice_present s p :
  p <> "" -> str_occurs p s ->
  exists j,
    str_scan_last s p = Some j
    /\ primer_splice s p = Return (str_upto s j +:+ p)
    /\ (str_no_overlap p s -> str_rfind s p = Some j).
Proof.
  intros Hp Hocc.
  rewrite primer_splice_unfold by assumption.
  assert (Hp' : chars p <> []) by (rewrite chars_empty; assumption).
  rewrite str_occurs_chars in Hocc.
  destruct (Seq.find (chars p) (chars s)) as [i|] eqn:Hf;
    [|apply find_None in Hf; contradiction].
  destruct (split_go_scan (length (chars s)) _ _ _ Hp' (le_n _) Hf)
    as (j & Hscan & _ & Hjoin & Hoccj & Hlast).
  exists j. split; [exact Hscan|]. split.
  - unfold Seq.split. rewrite Hjoin. reflexivity.
  - intros Hno. apply last_cut_is_rfind; assumption.
Qed.

Lemma occurs_by_find p s i : Seq.find (chars p) (chars s) = Some i -> str_occurs p s.
Proof.
  intros H. apply str_occurs_chars. exists i. apply (find_Some _ _ _ H).
Qed.

Lemma not_occurs_by_find p s : Seq.find (chars p) (chars s) = None -> ~ str_occurs p s.
Proof. intros H. rewrite str_occurs_chars. apply find_None. exact H. Qed.

(** ** Computations *)

Lemma bind_lift_return {A B} (a : A) (k : A -> io B) : (x ← lift (Return a); k x) = k a.
Proof.
  unfold mbind, io_bind, bind, lift. destruct (k a) as [tr r]. reflexivity.
Qed.

Lemma bind_lift_raise {A B} (e : exn) (k : A -> io B) :
  (x ← lift (Raise e); k x) = ([], Raise e).
Proof. reflexivity. Qed.

Lemma bind_trace {A B} (m : io A) (k : A -> io B) tr a :
  m = (tr, Return a) -> (x ← m; k x) = (tr ++ fst (k a), snd (k a)).
Proof.
  intros ->. unfold mbind, io_bind, bind. destruct (k a). reflexivity.
Qed.

Lemma bind_raise {A B} (m : io A) (k : A -> io B) tr e :
  m = (tr, Raise e) -> (x ← m; k x) = (tr, Raise e).
Proof. intros ->. reflexivity. Qed.

(** ** The template path of [handle_chat] and [handle_format_test] *)

Lemma handle_chat_template_primer rt render messages options s p q :
  supports_chat_template rt = true ->
  apply_chat_template (tokenizer rt) = Some render ->
  render (messages ++ [assistant_turn p]) false = Return s ->
  primer_splice s p = Return q ->
  handle_chat rt messages (Some p) options
  = (print p "";; generate_text rt q options).
Proof.
  intros Hsup Hren Hs Hq. unfold handle_chat.
  rewrite Hsup. simpl negb. cbv iota. rewrite Hren, Hs.
  rewrite bind_lift_return, Hq, bind_lift_return. reflexivity.
Qed.

Lemma format_test_template_primer rt render messages options s p q :
  supports_chat_template rt = true ->
  apply_chat_template (tokenizer rt) = Some render ->
  render (messages ++ [assistant_turn p]) false = Return s ->
  primer_splice s p = Return q ->
  opt_primer options = Some p ->
  format_test_body rt messages options
  = {| formatted_prompt := Some q;
       template_applied := true;
       model_specific_processing := Some (messages ++ [assistant_turn p]);
       error := None |}.
Proof.
  intros Hsup Hren Hs Hq Hp. unfold format_test_body.
  rewrite Hsup, Hp, Hren, Hs, Hq. reflexivity.
Qed.

(** C10.  On the template path of [chat] and [format_test], a primer that
    does not occur in the rendered conversation makes the splice return the
    primer alone: the prompt handed to the generation, and the one
    [format_test] reports, is the primer, and the rendered text is dropped. *)
Theorem absent_primer_replaces_prompt rt render messages options s p :
  supports_chat_template rt = true ->
  apply_chat_template (tokenizer rt) = Some render ->
  render (messages ++ [assistant_turn p]) false = Return s ->
  ~ str_occurs p s ->
  primer_splice s p = Return p
  /\ handle_chat rt messages (Some p) options
     = (print p "";; generate_text rt p options)
  /\ (opt_primer options = Some p ->
      format_test_body rt messages options
      = {| formatted_prompt := Some p;
           template_applied := true;
           model_specific_processing := Some (messages ++ [assistant_turn p]);
           error := None |}).
Proof.
  intros Hsup Hren Hs Hno.
  pose proof (primer_splice_absent s p Hno) as Hq.
  split; [exact Hq|]. split.
  - eapply handle_chat_template_primer; eassumption.
  - intros Hp. eapply format_test_template_primer; eassumption.
Qed.

(** The template of the sample tokenizer trims the content of a turn, so a
    primer with a leading blank is not found in what it renders. *)
Lemma absent_primer_replaces_prompt_witness :
  supports_chat_template (sample_runtime mock_tokenizer ([], None)) = true
  /\ sample_render ([msg "user" "Hi"] ++ [assistant_turn " ok"]) false
     = Return "<|user|>Hi<|end|><|assistant|>ok<|end|>"
  /\ ~ str_occurs " ok" "<|user|>Hi<|end|><|assistant|>ok<|end|>"
  /\ primer_splice "<|user|>Hi<|end|><|assistant|>ok<|end|>" " ok" = Return " ok"
  /\ handle_chat (sample_runtime mock_tokenizer ([], None))
       [msg "user" "Hi"] (Some " ok") no_options
     = (print " ok" "";;
        generate_text (sample_runtime mock_tokenizer ([], None)) " ok" no_options).
Proof.
  assert (H1 : supports_chat_template (sample_runtime mock_tokenizer ([], None)) = true)
    by reflexivity.
  assert (H2 : sample_render ([msg "user" "Hi"] ++ [assistant_turn " ok"]) false
               = Return "<|user|>Hi<|end|><|assistant|>ok<|end|>")
    by (vm_compute; reflexivity).
  assert (H3 : ~ str_occurs " ok" "<|user|>Hi<|end|><|assistant|>ok<|end|>")
    by (apply not_occurs_by_find; vm_compute; reflexivity).
  split; [exact H1|]. split; [exact H2|]. split; [exact H3|].
  destruct (absent_primer_replaces_prompt
              (sample_runtime mock_tokenizer ([], None)) sample_render
              [msg "user" "Hi"] no_options _ " ok" H1 eq_refl H2 H3)
    as (Ha & Hb & _).
  split; [exact Ha | exact Hb].
Defined.

Lemma cut_at_last_split_Some s p j :
  str_scan_last s p = Some j -> cut_at_last_split s p = Some (str_upto s j +:+ p).
Proof. intros H. unfold cut_at_last_split. rewrite H. reflexivity. Qed.

Lemma cut_at_last_occurrence_Some s p j :
  str_rfind s p = Some j -> cut_at_last_occurrence s p = Some (str_upto s j +:+ p).
Proof. intros H. unfold cut_at_last_occurrence. rewrite H. reflexivity. Qed.

(** C6, as the code has it.  On the template path of [chat] and
    [format_test], for a non-empty primer that occurs in the rendered
    conversation, the spliced prompt is the rendered text up to the last
    place where the left-to-right scan of [split] finds the primer, with the
    primer behind it; when the occurrences of the primer do not overlap, that
    place is the last occurrence. *)
Theorem present_primer_cuts_at_last_split rt render messages options s p :
  supports_chat_template rt = true ->
  apply_chat_template (tokenizer rt) = Some render ->
  render (messages ++ [assistant_turn p]) false = Return s ->
  p <> "" ->
  str_occurs p s ->
  exists q,
    cut_at_last_split s p = Some q
    /\ primer_splice s p = Return q
    /\ handle_chat rt messages (Some p) options
       = (print p "";; generate_text rt q options)
    /\ (opt_primer options = Some p ->
        format_test_body rt messages options
        = {| formatted_prompt := Some q;
             template_applied := true;
             model_specific_processing := Some (messages ++ [assistant_turn p]);
             error := None |})
    /\ (str_no_overlap p s -> cut_at_last_occurrence s p = Some q).
Proof.
  intros Hsup Hren Hs Hp Hocc.
  destruct (primer_splice_present s p Hp Hocc) as (j & Hscan & Hq & Hlast).
  exists (str_upto s j +:+ p).
  split; [apply cut_at_last_split_Some; exact Hscan|].
  split; [exact Hq|]. split; [|split].
  - eapply handle_chat_template_primer; eassumption.
  - intros Hopt. eapply format_test_template_primer; eassumption.
  - intros Hno. apply cut_at_last_occurrence_Some, Hlast, Hno.
Qed.

Lemma present_primer_cuts_at_last_split_witness :
  supports_chat_template (sample_runtime mock_tokenizer ([], None)) = true
  /\ sample_render ([msg "user" "Hi"] ++ [assistant_turn "Sure"]) false
     = Return "<|user|>Hi<|end|><|assistant|>Sure<|end|>"
  /\ "Sure" <> ""
  /\ str_occurs "Sure" "<|user|>Hi<|end|><|assistant|>Sure<|end|>"
  /\ exists q,
       cut_at_last_split "<|user|>Hi<|end|><|assistant|>Sure<|end|>" "Sure" = Some q
       /\ primer_splice "<|user|>Hi<|end|><|assistant|>Sure<|end|>" "Sure" = Return q
       /\ q = "<|user|>Hi<|end|><|assistant|>Sure".
Proof.
  assert (H1 : supports_chat_template (sample_runtime mock_tokenizer ([], None)) = true)
    by reflexivity.
  assert (H2 : sample_render ([msg "user" "Hi"] ++ [assistant_turn "Sure"]) false
               = Return "<|user|>Hi<|end|><|assistant|>Sure<|end|>")
    by (vm_compute; reflexivity).
  assert (H3 : "Sure" <> "") by discriminate.
  assert (H4 : str_occurs "Sure" "<|user|>Hi<|end|><|assistant|>Sure<|end|>")
    by (exists "<|user|>Hi<|end|><|assistant|>", "<|end|>"; reflexivity).
  split; [exact H1|]. split; [exact H2|]. split; [exact H3|]. split; [exact H4|].
  destruct (present_primer_cuts_at_last_split
              (sample_runtime mock_tokenizer ([], None)) sample_render
              [msg "user" "Hi"] no_options _ "Sure" H1 eq_refl H2 H3 H4)
    as (q & Ha & Hb & _).
  exists q. split; [exact Ha|]. split; [exact Hb|].
  vm_compute in Ha. congruence.
Defined.

(** The claim with the last occurrence fails when occurrences overlap: the
    sample template closes the assistant tag with [>], and for the primer
    [>>] the scan cuts one character before the last occurrence. *)
Lemma last_occurrence_counterexample :
  supports_chat_template (sample_runtime mock_tokenizer ([], None)) = true
  /\ sample_render ([msg "user" "Hi"] ++ [assistant_turn ">>"]) false
     = Return "<|user|>Hi<|end|><|assistant|>>><|end|>"
  /\ str_occurs ">>" "<|user|>Hi<|end|><|assistant|>>><|end|>"
  /\ cut_at_last_occurrence "<|user|>Hi<|end|><|assistant|>>><|end|>" ">>"
     = Some "<|user|>Hi<|end|><|assistant|>>>"
  /\ formatted_prompt
       (format_test_body (sample_runtime mock_tokenizer ([], None))
          [msg "user" "Hi"] {| opt_primer := Some ">>"; opt_other := ∅ |})
     = Some "<|user|>Hi<|end|><|assistant|>>"
  /\ primer_splice "<|user|>Hi<|end|><|assistant|>>><|end|>" ">>"
     <> Return "<|user|>Hi<|end|><|assistant|>>>".
Proof.
  split; [reflexivity|].
  split; [vm_compute; reflexivity|].
  split; [exists "<|user|>Hi<|end|><|assistant|", "><|end|>"; reflexivity|].
  split; [vm_compute; reflexivity|].
  split; [vm_compute; reflexivity|].
  vm_compute. discriminate.
Qed.

(** ** The fallback serialization *)

Lemma extend_parts_lines prompt_parts m :
  extend_parts prompt_parts m = prompt_parts ++ fallback_lines m.
Proof.
  unfold extend_parts, fallback_lines, fallback_label.
  destruct (bool_decide (role m = "system")); reflexivity.
Qed.

Lemma foldl_extend_parts acc messages :
  foldl extend_parts acc messages = acc ++ concat (map fallback_lines messages).
Proof.
  revert acc; induction messages as [|m rest IH]; intros acc; simpl.
  - rewrite app_nil_r. reflexivity.
  - rewrite IH, extend_parts_lines, <- app_assoc. reflexivity.
Qed.

Lemma str_join_app sep l1 l2 :
  l1 <> [] -> l2 <> [] ->
  str_join sep (l1 ++ l2) = str_join sep l1 +:+ sep +:+ str_join sep l2.
Proof.
  intros H1 H2. induction l1 as [|x l1 IH]; [congruence|].
  destruct l1 as [|y l1].
  - destruct l2; [congruence | reflexivity].
  - change (str_join sep ((x :: y :: l1) ++ l2))
      with (x +:+ sep +:+ str_join sep ((y :: l1) ++ l2)).
    rewrite IH by discriminate.
    change (str_join sep (x :: y :: l1)) with (x +:+ sep +:+ str_join sep (y :: l1)).
    rewrite !str_app_assoc. reflexivity.
Qed.

Lemma fallback_block_lines m : fallback_block m = str_join LF (fallback_lines m).
Proof.
  unfold fallback_block, fallback_lines, str_join.
  rewrite !str_app_assoc. reflexivity.
Qed.

Lemma str_join_blocks messages :
  str_join LF (concat (map fallback_lines messages))
  = str_join LF (map fallback_block messages).
Proof.
  induction messages as [|m rest IH]; [reflexivity|].
  destruct rest as [|m' rest].
  - change (concat (map fallback_lines [m])) with (fallback_lines m ++ []).
    rewrite app_nil_r. symmetry. apply fallback_block_lines.
  - change (concat (map fallback_lines (m :: m' :: rest)))
      with (fallback_lines m ++ concat (map fallback_lines (m' :: rest))).
    rewrite str_join_app; [| discriminate | discriminate].
    rewrite IH, <- fallback_block_lines. reflexivity.
Qed.

(** C9.  Without a usable template the conversation is serialized as one
    block per message, [<!-- begin of ROLE -->], the trimmed content,
    [<!-- end of ROLE -->], joined by line feeds in the order of the input,
    with the label [SYSTEM] for the role [system] and the role itself
    otherwise; the example of the specification comes out as stated. *)
Theorem generate_merged_prompt_blocks :
  (forall messages, generate_merged_prompt messages = fallback_serialization messages)
  /\ generate_merged_prompt [msg "system" " Be nice. "; msg "user" "Hi"]
     = "<!-- begin of SYSTEM -->" +:+ LF +:+ "Be nice." +:+ LF
       +:+ "<!-- end of SYSTEM -->" +:+ LF
       +:+ "<!-- begin of user -->" +:+ LF +:+ "Hi" +:+ LF
       +:+ "<!-- end of user -->".
Proof.
  split.
  - intros messages. unfold generate_merged_prompt, fallback_serialization.
    rewrite foldl_extend_parts. simpl app. apply str_join_blocks.
  - vm_compute. reflexivity.
Qed.

(** ** Traces *)

Lemma stdout_of_app tr1 tr2 : stdout_of (tr1 ++ tr2) = stdout_of tr1 ++ stdout_of tr2.
Proof.
  induction tr1 as [|e tr1 IH]; [reflexivity|].
  destruct e; simpl; rewrite IH; reflexivity.
Qed.

Lemma pulls_of_app tr1 tr2 : pulls_of (tr1 ++ tr2) = pulls_of tr1 + pulls_of tr2.
Proof.
  induction tr1 as [|e tr1 IH]; [reflexivity|].
  destruct e; simpl; rewrite IH; reflexivity.
Qed.

Lemma stdout_of_chunks cs : stdout_of (flat_map chunk_events cs) = map written cs.
Proof. induction cs as [|c cs IH]; simpl; [reflexivity | rewrite IH; reflexivity]. Qed.

Lemma pulls_of_chunks cs : pulls_of (flat_map chunk_events cs) = length cs.
Proof. induction cs as [|c cs IH]; simpl; [reflexivity | rewrite IH; reflexivity]. Qed.

Lemma count_nul_app a b : count_nul (a +:+ b) = count_nul a + count_nul b.
Proof.
  induction a as [|c a IH]; [reflexivity|].
  rewrite str_app_cons. simpl. rewrite IH. lia.
Qed.

Lemma count_nul_removed s : count_nul (str_remove_nul s) = 0.
Proof.
  induction s as [|c s IH]; [reflexivity|]. simpl.
  destruct (Ascii.eqb c "000") eqn:E; [exact IH|]. simpl. rewrite E, IH. reflexivity.
Qed.

Lemma count_nul_written cs : count_nul (str_concat (map written cs)) = 0.
Proof.
  induction cs as [|c cs IH]; [reflexivity|].
  simpl. rewrite count_nul_app, IH. unfold written. rewrite count_nul_removed. reflexivity.
Qed.

Lemma str_concat_app l1 l2 : str_concat (l1 ++ l2) = str_concat l1 +:+ str_concat l2.
Proof.
  induction l1 as [|x l1 IH]; [reflexivity|].
  simpl. rewrite IH, str_app_assoc. reflexivity.
Qed.

Lemma count_nul_response cs :
  count_nul (str_concat (map written cs ++ [terminator])) = 1.
Proof.
  rewrite str_concat_app, count_nul_app, count_nul_written. reflexivity.
Qed.

(** ** The streaming loop *)

Lemma stream_loop_eod rt eos c rest failure :
  is_eod_token c (tokenizer rt) = true ->
  stream_loop rt eos (c :: rest) failure = ([Pull; Stdout terminator], Return true).
Proof. intros H. simpl. rewrite H. reflexivity. Qed.

Lemma stream_loop_text rt c rest failure :
  is_eod_token c (tokenizer rt) = false ->
  stream_loop rt false (c :: rest) failure
  = (chunk_events c ++ fst (stream_loop rt false rest failure),
     snd (stream_loop rt false rest failure)).
Proof.
  intros H. simpl. rewrite H. simpl.
  unfold mbind, io_bind, bind, print, pull. simpl.
  destruct (stream_loop rt false rest failure) as [tr [b|e]]; simpl;
    unfold written; rewrite str_app_nil_r; reflexivity.
Qed.

Lemma stream_loop_texts rt pre rest failure :
  Forall (fun c => is_eod_token c (tokenizer rt) = false) pre ->
  stream_loop rt false (pre ++ rest) failure
  = (flat_map chunk_events pre ++ fst (stream_loop rt false rest failure),
     snd (stream_loop rt false rest failure)).
Proof.
  induction 1 as [|c pre Hc _ IH].
  - simpl. destruct (stream_loop rt false rest failure). reflexivity.
  - change ((c :: pre) ++ rest) with (c :: (pre ++ rest)).
    rewrite (stream_loop_text _ _ _ _ Hc), IH. cbn [fst snd]. reflexivity.
Qed.

Lemma generate_text_unfold rt prompt options chunks failure tr b :
  stream_generate rt prompt (final_options options) = (chunks, failure) ->
  stream_loop rt false chunks failure = (tr, Return b) ->
  generate_text rt prompt options
  = (Stderr ("--- prompt" +:+ LF +:+ prompt +:+ LF)
       :: tr ++ (if b then [] else [Stdout terminator]),
     Return tt).
Proof.
  intros Hgen Hloop. unfold generate_text. rewrite Hgen.
  unfold mbind, io_bind, bind, stderr_write. rewrite Hloop.
  destruct b; simpl; [rewrite app_nil_r|]; reflexivity.
Qed.

Lemma generate_text_raise rt prompt options chunks failure tr e :
  stream_generate rt prompt (final_options options) = (chunks, failure) ->
  stream_loop rt false chunks failure = (tr, Raise e) ->
  generate_text rt prompt options
  = (Stderr ("--- prompt" +:+ LF +:+ prompt +:+ LF) :: tr, Raise e).
Proof.
  intros Hgen Hloop. unfold generate_text. rewrite Hgen.
  unfold mbind, io_bind, bind, stderr_write. rewrite Hloop. reflexivity.
Qed.

(** C2.  For a generation sequence that ends without an exception: when the
    chunk behind [pre] is the first one detected as an end marker,
    [generate_text] writes the texts of [pre], then the terminator, and takes
    no chunk behind the end marker (with nothing behind it, these are N-1
    text writes for N chunks); when no chunk is an end marker it writes all
    texts, then the terminator.  Either way the output holds one NUL. *)
Theorem generate_text_one_terminator rt prompt options chunks :
  stream_generate rt prompt (final_options options) = (chunks, None) ->
  (forall pre last post,
      chunks = pre ++ last :: post ->
      Forall (fun c => is_eod_token c (tokenizer rt) = false) pre ->
      is_eod_token last (tokenizer rt) = true ->
      stdout_of (fst (generate_text rt prompt options))
      = map written pre ++ [terminator]
      /\ pulls_of (fst (generate_text rt prompt options)) = S (length pre)
      /\ snd (generate_text rt prompt options) = Return tt
      /\ count_nul (str_concat (stdout_of (fst (generate_text rt prompt options)))) = 1)
  /\ (Forall (fun c => is_eod_token c (tokenizer rt) = false) chunks ->
      stdout_of (fst (generate_text rt prompt options))
      = map written chunks ++ [terminator]
      /\ pulls_of (fst (generate_text rt prompt options)) = length chunks
      /\ snd (generate_text rt prompt options) = Return tt
      /\ count_nul (str_concat (stdout_of (fst (generate_text rt prompt options)))) = 1).
Proof.
  intros Hgen. split.
  - intros pre last post -> Hpre Hlast.
    assert (Hloop : stream_loop rt false (pre ++ last :: post) None
                    = (flat_map chunk_events pre ++ [Pull; Stdout terminator], Return true)).
    { rewrite (stream_loop_texts _ _ _ _ Hpre), (stream_loop_eod _ _ _ _ _ Hlast).
      reflexivity. }
    rewrite (generate_text_unfold _ _ _ _ _ _ _ Hgen Hloop).
    cbn [fst snd]. rewrite app_nil_r.
    assert (Hout : stdout_of (Stderr ("--- prompt" +:+ LF +:+ prompt +:+ LF)
                                :: flat_map chunk_events pre ++ [Pull; Stdout terminator])
                   = map written pre ++ [terminator]).
    { simpl. rewrite stdout_of_app, stdout_of_chunks. reflexivity. }
    rewrite Hout. split; [reflexivity|]. split; [|split; [reflexivity|]].
    + simpl. rewrite pulls_of_app, pulls_of_chunks. simpl. lia.
    + apply count_nul_response.
  - intros Hall.
    assert (Hloop : stream_loop rt false chunks None
                    = (flat_map chunk_events chunks, Return false)).
    { rewrite <- (app_nil_r chunks) at 1.
      rewrite (stream_loop_texts _ _ _ _ Hall). simpl. rewrite app_nil_r. reflexivity. }
    rewrite (generate_text_unfold _ _ _ _ _ _ _ Hgen Hloop).
    cbn [fst snd].
    assert (Hout : stdout_of (Stderr ("--- prompt" +:+ LF +:+ prompt +:+ LF)
                                :: flat_map chunk_events chunks ++ [Stdout terminator])
                   = map written chunks ++ [terminator]).
    { simpl. rewrite stdout_of_app, stdout_of_chunks. reflexivity. }
    rewrite Hout. split; [reflexivity|]. split; [|split; [reflexivity|]].
    + simpl. rewrite pulls_of_app, pulls_of_chunks. simpl. lia.
    + apply count_nul_response.
Qed.

Lemma generate_text_one_terminator_witness :
  stream_generate
    (sample_runtime mock_tokenizer
       ([text_chunk "Hel" 5%Z; text_chunk "lo" 6%Z; stop_chunk], None))
    "Hi" (final_options no_options)
  = ([text_chunk "Hel" 5%Z; text_chunk "lo" 6%Z; stop_chunk], None)
  /\ stdout_of (fst (generate_text
                       (sample_runtime mock_tokenizer
                          ([text_chunk "Hel" 5%Z; text_chunk "lo" 6%Z; stop_chunk], None))
                       "Hi" no_options))
     = ["Hel"; "lo"; terminator]
  /\ pulls_of (fst (generate_text
                      (sample_runtime mock_tokenizer
                         ([text_chunk "Hel" 5%Z; text_chunk "lo" 6%Z; stop_chunk], None))
                      "Hi" no_options))
     = 3
  /\ stdout_of (fst (generate_text
                       (sample_runtime mock_tokenizer
                          ([text_chunk "Hel" 5%Z; text_chunk "lo" 6%Z], None))
                       "Hi" no_options))
     = ["Hel"; "lo"; terminator].
Proof.
  split; [reflexivity|].
  destruct (generate_text_one_terminator
              (sample_runtime mock_tokenizer
                 ([text_chunk "Hel" 5%Z; text_chunk "lo" 6%Z; stop_chunk], None))
              "Hi" no_options _ eq_refl) as [Heod _].
  destruct (Heod [text_chunk "Hel" 5%Z; text_chunk "lo" 6%Z] stop_chunk [] eq_refl)
    as (Hout & Hpulls & _).
  - repeat constructor.
  - reflexivity.
  - split; [exact Hout|]. split; [exact Hpulls|].
    destruct (generate_text_one_terminator
                (sample_runtime mock_tokenizer
                   ([text_chunk "Hel" 5%Z; text_chunk "lo" 6%Z], None))
                "Hi" no_options _ eq_refl) as [_ Hnone].
    destruct Hnone as (Hout' & _); [repeat constructor | exact Hout'].
Defined.

(** ** End-of-sequence detection *)

Lemma is_eod_token_without_token c t :
  finish_reason c <> Some "stop" -> token c = None -> is_eod_token c t = false.
Proof.
  intros Hf Ht. unfold is_eod_token.
  rewrite bool_decide_eq_false_2 by assumption. rewrite Ht. reflexivity.
Qed.

(** C3.  What the code does for a chunk that carries only a collection of
    token ids: the collection is never looked at.  For the mock tokenizer of
    the tests the end-of-sequence id 2 is in the candidate list and in the
    collection [1; 2; 3] of the chunk, and [is_eod_token] answers false. *)
Theorem ids_only_chunk_not_detected :
  finish_reason ids_only_chunk = None
  /\ token ids_only_chunk = None
  /\ token_ids ids_only_chunk = Some [1%Z; 2%Z; 3%Z]
  /\ Some 2%Z ∈ end_token_ids mock_tokenizer
  /\ is_eod_token ids_only_chunk mock_tokenizer = false.
Proof.
  split; [reflexivity|]. split; [reflexivity|]. split; [reflexivity|].
  split; [|reflexivity].
  change (end_token_ids mock_tokenizer) with [Some 2%Z]. apply list_elem_of_here.
Qed.

(** ** The method list of the capabilities *)

Lemma chat_in_methods t :
  "chat" ∈ methods (get_capabilities t) <-> is_Some (apply_chat_template t).
Proof.
  unfold get_capabilities. simpl. destruct (apply_chat_template t) as [f|].
  - split; [intros _; eauto|]. intros _.
    do 3 apply list_elem_of_further. apply list_elem_of_here.
  - split; [|intros [x Hx]; discriminate].
    intros H. exfalso.
    repeat (apply elem_of_cons in H as [H|H]; [discriminate|]).
    apply elem_of_nil in H. exact H.
Qed.

Lemma supports_chat_template_renderer rt :
  supports_chat_template rt = true ->
  is_Some (apply_chat_template (tokenizer rt))
  /\ is_Some (chat_template (tokenizer rt)).
Proof.
  unfold supports_chat_template. rewrite andb_true_iff, !bool_decide_eq_true. tauto.
Qed.

(** C1, as the code has it.  The method [chat] is in the method list of the
    capabilities exactly when the tokenizer has the rendering function,
    whether a template is assigned or not; so it is listed in particular
    whenever [supports_chat_template] holds, which asks for the template as
    well. *)
Theorem chat_listed_iff_renderer :
  (forall t, "chat" ∈ methods (get_capabilities t)
             <-> is_Some (apply_chat_template t))
  /\ (forall rt, supports_chat_template rt = true ->
                 "chat" ∈ methods (capabilities rt)).
Proof.
  split; [exact chat_in_methods|].
  intros rt H. apply chat_in_methods.
  apply (supports_chat_template_renderer rt H).
Qed.

(** A tokenizer that has the rendering function but no template assigned:
    [supports_chat_template] is false, and the method [chat] is listed. *)
Lemma chat_listed_without_template :
  is_Some (apply_chat_template untemplated_tokenizer)
  /\ chat_template untemplated_tokenizer = None
  /\ supports_chat_template (sample_runtime untemplated_tokenizer ([], None)) = false
  /\ "chat" ∈ methods (get_capabilities untemplated_tokenizer).
Proof.
  split; [eexists; reflexivity|]. split; [reflexivity|]. split; [reflexivity|].
  apply chat_in_methods. eexists; reflexivity.
Qed.

(** ** Chat-template constraints *)

Lemma detect_without_renderer t :
  apply_chat_template t = None -> detect_chat_restrictions t = None.
Proof. intros H. unfold detect_chat_restrictions. rewrite H. reflexivity. Qed.

Lemma detect_all_succeed t render :
  apply_chat_template t = Some render ->
  Forall (probe_succeeds render) _get_test_patterns ->
  detect_chat_restrictions t = None.
Proof.
  intros Hr Hall. unfold detect_chat_restrictions. rewrite Hr.
  unfold _get_test_patterns in *.
  repeat match goal with
         | H : Forall _ (_ :: _) |- _ => apply Forall_cons in H as [? H]
         end.
  clear Hall. unfold probe_succeeds, succeeds in *.
  cbn [foldl]. unfold run_pattern.
  cbn [pattern_messages pattern_name] in *.
  repeat match goal with
         | H : match render ?m false with _ => _ end = true |- _ =>
             destruct (render m false) eqn:?; [clear H | discriminate H]
         end.
  vm_compute. reflexivity.
Qed.

Lemma infer_Some_not_empty results r :
  _infer_restrictions_from_results results = Some r -> r <> ∅.
Proof.
  unfold _infer_restrictions_from_results. cbv zeta.
  case_bool_decide as Hd; [discriminate|]. intros [= <-]. exact Hd.
Qed.

Lemma detect_Some t r :
  detect_chat_restrictions t = Some r ->
  r <> ∅
  /\ exists render,
       apply_chat_template t = Some render
       /\ Exists (probe_fails render) _get_test_patterns.
Proof.
  intros H. split.
  - unfold detect_chat_restrictions in H.
    destruct (apply_chat_template t); [|discriminate].
    eapply infer_Some_not_empty. exact H.
  - destruct (apply_chat_template t) as [render|] eqn:Hr.
    + exists render. split; [reflexivity|].
      destruct (decide (Forall (fun p => succeeds (render (pattern_messages p) false) = true)
                          _get_test_patterns)) as [Hall|Hex].
      * rewrite (detect_all_succeed t render Hr Hall) in H. discriminate.
      * apply not_Forall_Exists in Hex; [|intros p; apply _].
        eapply Exists_impl; [exact Hex|]. intros p Hp. unfold probe_fails.
        simpl in Hp.
        destruct (succeeds (render (pattern_messages p) false)); congruence.
    + rewrite (detect_without_renderer t Hr) in H. discriminate.
Qed.

(** C8, as the code has it.  A tokenizer without a rendering function and
    a tokenizer whose renderer accepts all eight probe conversations get the
    same result, [None]; a result other than [None] is a mapping that is not
    empty, and it needs a renderer on which some probe raises. *)
Theorem no_constraints_same_as_not_applicable t1 t2 render :
  apply_chat_template t1 = None ->
  apply_chat_template t2 = Some render ->
  Forall (probe_succeeds render) _get_test_patterns ->
  detect_chat_restrictions t1 = None
  /\ detect_chat_restrictions t2 = None
  /\ (forall t r,
        detect_chat_restrictions t = Some r ->
        r <> ∅
        /\ exists render',
             apply_chat_template t = Some render'
             /\ Exists (probe_fails render') _get_test_patterns).
Proof.
  intros H1 H2 Hall. split; [apply detect_without_renderer; exact H1|].
  split; [eapply detect_all_succeed; eassumption|].
  intros t r. apply detect_Some.
Qed.

Lemma no_constraints_same_as_not_applicable_witness :
  apply_chat_template plain_tokenizer = None
  /\ apply_chat_template mock_tokenizer = Some sample_render
  /\ Forall (probe_succeeds sample_render) _get_test_patterns
  /\ detect_chat_restrictions plain_tokenizer = None
  /\ detect_chat_restrictions mock_tokenizer = None.
Proof.
  assert (H3 : Forall (probe_succeeds sample_render) _get_test_patterns)
    by (repeat constructor).
  split; [reflexivity|]. split; [reflexivity|]. split; [exact H3|].
  destruct (no_constraints_same_as_not_applicable
              plain_tokenizer mock_tokenizer sample_render eq_refl eq_refl H3)
    as (Ha & Hb & _).
  split; [exact Ha | exact Hb].
Defined.

(** The two results the claim tells apart are the same value. *)
Lemma not_applicable_counterexample :
  apply_chat_template plain_tokenizer = None
  /\ apply_chat_template mock_tokenizer = Some sample_render
  /\ Forall (probe_succeeds sample_render) _get_test_patterns
  /\ detect_chat_restrictions plain_tokenizer
     = detect_chat_restrictions mock_tokenizer.
Proof.
  split; [reflexivity|]. split; [reflexivity|].
  split; [repeat constructor|]. vm_compute. reflexivity.
Qed.

(** ** Special tokens *)

Lemma foldl_pointwise {A B} (f g : A -> B -> A) l a :
  (forall a x, f a x = g a x) -> foldl f a l = foldl g a l.
Proof.
  intros H. revert a; induction l as [|x l IH]; intros a; simpl; [reflexivity|].
  rewrite H. apply IH.
Qed.

Lemma add_standard_record t acc item :
  add_standard t acc item = record_entry (standard_entry t) acc item.
Proof.
  destruct item as [name [tok|]]; unfold add_standard, record_entry, standard_entry;
    simpl; [|reflexivity].
  destruct (getattr_token_id t name); reflexivity.
Qed.

Lemma add_pair_record t acc item :
  add_pair t acc item = record_entry (pair_entry t) acc item.
Proof.
  destruct item as [name [s e]]. unfold add_pair, record_entry, pair_entry. simpl.
  destruct (bool_decide _ && bool_decide _); reflexivity.
Qed.

Lemma add_single_record t acc item :
  add_single t acc item = record_entry (single_entry t) acc item.
Proof.
  destruct item as [name txt]. unfold add_single, record_entry, single_entry. simpl.
  destruct (bool_decide _); reflexivity.
Qed.

Lemma record_entry_other {X} (entry : string * X -> option SpecialTokenEntry)
    acc item (k : string) :
  fst item <> k -> record_entry entry acc item !! k = acc !! k.
Proof.
  intros Hne. unfold record_entry. destruct (entry item); [|reflexivity].
  apply lookup_insert_ne. exact Hne.
Qed.

Lemma record_entry_own {X} (entry : string * X -> option SpecialTokenEntry) acc item :
  record_entry entry acc item !! fst item
  = match entry item with Some v => Some v | None => acc !! fst item end.
Proof.
  unfold record_entry. destruct (entry item); [|reflexivity].
  apply lookup_insert_eq.
Qed.

Lemma foldl_record_other {X} (entry : string * X -> option SpecialTokenEntry)
    (l : list (string * X)) acc (k : string) :
  k ∉ map fst l -> foldl (record_entry entry) acc l !! k = acc !! k.
Proof.
  revert acc; induction l as [|x l IH]; intros acc Hk; simpl; [reflexivity|].
  simpl in Hk. apply not_elem_of_cons in Hk as [Hne Hk].
  rewrite IH by exact Hk. apply record_entry_other. congruence.
Qed.

Lemma foldl_record_own {X} (entry : string * X -> option SpecialTokenEntry)
    (l : list (string * X)) acc item :
  NoDup (map fst l) -> item ∈ l ->
  foldl (record_entry entry) acc l !! fst item
  = match entry item with Some v => Some v | None => acc !! fst item end.
Proof.
  revert acc; induction l as [|x l IH]; intros acc Hnd Hin.
  - apply elem_of_nil in Hin. contradiction.
  - simpl in Hnd. apply NoDup_cons in Hnd as [Hx Hnd].
    apply elem_of_cons in Hin as [->|Hin]; simpl.
    + rewrite foldl_record_other by exact Hx. apply record_entry_own.
    + rewrite IH by assumption.
      rewrite record_entry_other; [reflexivity|].
      intros Heq. apply Hx. rewrite Heq.
      apply list_elem_of_fmap. exists item. split; [reflexivity | exact Hin].
Qed.

Lemma get_special_tokens_folds t :
  get_special_tokens t
  = foldl (record_entry (single_entry t))
      (foldl (record_entry (pair_entry t))
         (foldl (record_entry (standard_entry t)) ∅ (standard_tokens t))
         pair_tokens)
      single_tokens.
Proof.
  unfold get_special_tokens.
  rewrite (foldl_pointwise _ _ _ _ (add_single_record t)).
  rewrite (foldl_pointwise _ _ _ _ (add_pair_record t)).
  rewrite (foldl_pointwise _ _ _ _ (add_standard_record t)).
  reflexivity.
Qed.

(** The names of the three catalogues are pairwise different. *)
Lemma catalogue_names_NoDup :
  NoDup (["eod"; "bos"; "unk"; "pad"]
         ++ map fst pair_tokens ++ map fst single_tokens).
Proof. apply (bool_decide_unpack _). vm_compute. exact I. Qed.

Lemma standard_names t : map fst (standard_tokens t) = ["eod"; "bos"; "unk"; "pad"].
Proof. reflexivity. Qed.

Lemma lookup_standard t (item : string * option string) :
  item ∈ standard_tokens t ->
  get_special_tokens t !! fst item = standard_entry t item.
Proof.
  intros Hin. pose proof catalogue_names_NoDup as Hnd.
  apply NoDup_app in Hnd as (Hstd & Hfresh & Hrest).
  assert (Hname : fst item ∈ ["eod"; "bos"; "unk"; "pad"]).
  { rewrite <- (standard_names t). apply list_elem_of_fmap. eauto. }
  specialize (Hfresh _ Hname).
  rewrite get_special_tokens_folds.
  rewrite foldl_record_other by (intros H; apply Hfresh, elem_of_app; right; exact H).
  rewrite foldl_record_other by (intros H; apply Hfresh, elem_of_app; left; exact H).
  rewrite foldl_record_own; [| rewrite standard_names; exact Hstd | exact Hin].
  destruct (standard_entry t item); reflexivity.
Qed.

Lemma lookup_pair t (item : string * (string * string)) :
  item ∈ pair_tokens ->
  get_special_tokens t !! fst item = pair_entry t item.
Proof.
  intros Hin. pose proof catalogue_names_NoDup as Hnd.
  apply NoDup_app in Hnd as (Hstd & Hfresh & Hrest).
  apply NoDup_app in Hrest as (Hpair & Hfresh' & Hsingle).
  assert (Hname : fst item ∈ map fst pair_tokens).
  { apply list_elem_of_fmap. eauto. }
  rewrite get_special_tokens_folds.
  rewrite foldl_record_other by (apply Hfresh'; exact Hname).
  rewrite foldl_record_own by assumption.
  rewrite foldl_record_other.
  - destruct (pair_entry t item); reflexivity.
  - rewrite standard_names. intros H. apply (Hfresh _ H), elem_of_app. left. exact Hname.
Qed.

Lemma lookup_single t (item : string * string) :
  item ∈ single_tokens ->
  get_special_tokens t !! fst item = single_entry t item.
Proof.
  intros Hin. pose proof catalogue_names_NoDup as Hnd.
  apply NoDup_app in Hnd as (Hstd & Hfresh & Hrest).
  apply NoDup_app in Hrest as (Hpair & Hfresh' & Hsingle).
  assert (Hname : fst item ∈ map fst single_tokens).
  { apply list_elem_of_fmap. eauto. }
  rewrite get_special_tokens_folds.
  rewrite foldl_record_own by assumption.
  rewrite foldl_record_other by (intros H; apply (Hfresh' _ H); exact Hname).
  rewrite foldl_record_other.
  - destruct (single_entry t item); reflexivity.
  - rewrite standard_names. intros H. apply (Hfresh _ H), elem_of_app. right. exact Hname.
Qed.

(** C5, as the code has it.  A paired candidate is in the mapping exactly
    when both its ids differ from the unknown id, a single-form candidate
    exactly when its id does; the standard tokens bos, unk and pad are not
    compared with the unknown id: each is in the mapping exactly when the
    tokenizer declares its text and its id. *)
Theorem special_tokens_presence t :
  (forall name start_token end_token,
      (name, (start_token, end_token)) ∈ pair_tokens ->
      is_Some (get_special_tokens t !! name)
      <-> convert_tokens_to_ids t start_token <> unk_token_id t
          /\ convert_tokens_to_ids t end_token <> unk_token_id t)
  /\ (forall name token_text,
        (name, token_text) ∈ single_tokens ->
        is_Some (get_special_tokens t !! name)
        <-> convert_tokens_to_ids t token_text <> unk_token_id t)
  /\ (forall name tok,
        (name, tok) ∈ standard_tokens t -> name <> "eod" ->
        is_Some (get_special_tokens t !! name)
        <-> is_Some tok /\ is_Some (getattr_token_id t name)).
Proof.
  split; [|split].
  - intros name s e Hin. pose proof (lookup_pair t _ Hin) as Hl. simpl in Hl.
    rewrite Hl. unfold pair_entry. simpl.
    destruct (decide (convert_tokens_to_ids t s = unk_token_id t)) as [Hs|Hs];
      destruct (decide (convert_tokens_to_ids t e = unk_token_id t)) as [He|He];
      repeat (first [ rewrite (bool_decide_eq_false_2 (_ <> _)) by (intros H; apply H; assumption)
                    | rewrite (bool_decide_eq_true_2 (_ <> _)) by assumption ]);
      simpl; split;
      try (intros [x Hx]; discriminate);
      try (intros [H1 H2]; contradiction);
      eauto.
  - intros name txt Hin. pose proof (lookup_single t _ Hin) as Hl. simpl in Hl.
    rewrite Hl. unfold single_entry. simpl.
    destruct (decide (convert_tokens_to_ids t txt = unk_token_id t)) as [Hs|Hs].
    + rewrite bool_decide_eq_false_2 by (intros H; apply H; assumption).
      split; [intros [x Hx]; discriminate | contradiction].
    + rewrite bool_decide_eq_true_2 by assumption. split; eauto.
  - intros name tok Hin _. pose proof (lookup_standard t _ Hin) as Hl. simpl in Hl.
    rewrite Hl. unfold standard_entry. simpl.
    destruct tok as [tok|].
    + destruct (getattr_token_id t name) as [id|].
      * split; eauto.
      * split; [intros [x Hx]; discriminate | intros [_ [x Hx]]; discriminate].
    + split; [intros [x Hx]; discriminate | intros [[x Hx] _]; discriminate].
Qed.

Lemma special_tokens_presence_witness :
  ("system", ("<|system|>", "<|/system|>")) ∈ pair_tokens
  /\ ("vision", "<|vision|>") ∈ single_tokens
  /\ is_Some (get_special_tokens mock_tokenizer !! "system")
  /\ ~ is_Some (get_special_tokens mock_tokenizer !! "vision").
Proof.
  assert (H1 : ("system", ("<|system|>", "<|/system|>")) ∈ pair_tokens)
    by apply list_elem_of_here.
  assert (H2 : ("vision", "<|vision|>") ∈ single_tokens)
    by (do 4 apply list_elem_of_further; apply list_elem_of_here).
  split; [exact H1|]. split; [exact H2|].
  destruct (special_tokens_presence mock_tokenizer) as (Hpair & Hsingle & _).
  split.
  - apply (Hpair _ _ _ H1). split; vm_compute; discriminate.
  - intros H. apply (Hsingle _ _ H2) in H. apply H. vm_compute. reflexivity.
Defined.

(** The unknown token of the tokenizer is a candidate, its id is the unknown
    id, and it is in the mapping. *)
Lemma unknown_token_counterexample :
  ("unk", Some "<unk>") ∈ standard_tokens mock_tokenizer
  /\ unk_token_id mock_tokenizer = Some 0%Z
  /\ get_special_tokens mock_tokenizer !! "unk"
     = Some (SingleToken {| tok_text := "<unk>"; tok_id := Some 0%Z |}).
Proof.
  split; [do 2 apply list_elem_of_further; apply list_elem_of_here|].
  split; [reflexivity|]. vm_compute. reflexivity.
Qed.

(** ** Reading requests *)

Lemma loads_empty rt : loads rt "" = None.
Proof. reflexivity. Qed.

Lemma read_loop_shorter rt lines stdin :
  length (snd (read_loop rt lines stdin)) <= length stdin
  /\ (fst (read_loop rt lines stdin) <> JNull ->
      lines = [] -> length (snd (read_loop rt lines stdin)) < length stdin).
Proof.
  revert lines; induction stdin as [|line rest IH]; intros lines; simpl.
  - destruct (loads rt (str_concat lines)) eqn:E; simpl; (split; [lia|]).
    + intros _ ->. rewrite loads_empty in E. discriminate.
    + congruence.
  - case_bool_decide as Hl.
    + destruct (loads rt (str_concat lines)); simpl; split; lia.
    + destruct (loads rt (str_concat (lines ++ [line]))); simpl.
      * split; lia.
      * destruct (IH (lines ++ [line])) as [Hle _]. split; lia.
Qed.

Lemma read_object_shorter rt stdin req rest :
  read rt stdin = (JObject req, rest) -> length rest < length stdin.
Proof.
  intros H. destruct (read_loop_shorter rt [] stdin) as [_ Hlt].
  unfold read in H. rewrite H in Hlt. simpl in Hlt. apply Hlt; [discriminate | reflexivity].
Qed.

(** Input of which no accumulated prefix parses is read to its end, and
    [read] has nothing to return. *)
Lemma read_loop_unparseable rt lines stdin :
  (forall k, k <= length stdin -> loads rt (str_concat (lines ++ take k stdin)) = None) ->
  fst (read_loop rt lines stdin) = JNull.
Proof.
  revert lines; induction stdin as [|line rest IH]; intros lines H; simpl.
  - specialize (H 0 (le_n _)). simpl in H. rewrite app_nil_r in H. rewrite H. reflexivity.
  - case_bool_decide as Hl.
    + specialize (H 0 (Nat.le_0_l _)). simpl in H. rewrite app_nil_r in H.
      rewrite H. reflexivity.
    + pose proof (H 1 ltac:(simpl; lia)) as H1. simpl in H1.
      rewrite take_0 in H1. rewrite H1.
      apply IH. intros k Hk. rewrite <- app_assoc. simpl.
      apply (H (S k)). simpl. lia.
Qed.

(** ** The protocol loop *)

Lemma main_loop_fuel rt n :
  forall stdin f1 f2,
    length stdin <= n -> length stdin < f1 -> length stdin < f2 ->
    main_loop f1 rt stdin = main_loop f2 rt stdin.
Proof.
  induction n as [|n IH]; intros stdin f1 f2 Hn H1 H2;
    (destruct f1 as [|f1]; [lia|]); (destruct f2 as [|f2]; [lia|]); simpl;
    destruct (read rt stdin) as [[| req | ty] rest] eqn:Hr; try reflexivity.
  - apply read_object_shorter in Hr. lia.
  - apply read_object_shorter in Hr.
    rewrite (IH rest f1 f2) by lia. reflexivity.
Qed.

Lemma main_unfold rt stdin :
  main rt stdin =
  match read rt stdin with
  | (JNull, _) => ([], Exited)
  | (JOther type_name, _) => ([], Crashed (no_get type_name))
  | (JObject req, rest) => after (serve rt req) (main rt rest)
  end.
Proof.
  unfold main at 1. simpl.
  destruct (read rt stdin) as [[| req | ty] rest] eqn:Hr; try reflexivity.
  apply read_object_shorter in Hr.
  rewrite (main_loop_fuel rt (length rest) rest (length stdin) (S (length rest)))
    by lia.
  fold (main rt rest). unfold after. destruct (main rt rest). reflexivity.
Qed.

(** The loop comes to an end on every input. *)
Lemma main_finishes rt stdin : snd (main rt stdin) <> Unfinished.
Proof.
  remember (length stdin) as n eqn:Hn. revert stdin Hn.
  induction n as [n IH] using lt_wf_ind. intros stdin ->.
  rewrite main_unfold.
  destruct (read rt stdin) as [[| req | ty] rest] eqn:Hr; simpl; try discriminate.
  apply read_object_shorter in Hr. apply (IH (length rest) Hr rest eq_refl).
Qed.

Lemma serve_malformed rt req :
  malformed req -> exists diagnostic, serve rt req = [Stderr diagnostic; Stdout terminator].
Proof.
  intros [ [Hm|Hm] | m Hm Hne Hunk | m Hm Hfc [Hmsg|Hmsg] | Hm [Hp|Hp] ];
    unfold serve; rewrite Hm.
  - eexists; reflexivity.
  - eexists; reflexivity.
  - destruct m as [|c m]; [congruence|].
    unfold dispatch.
    assert (Hk : forall k, k ∈ known_methods -> String c m <> k)
      by (intros k Hk Heq; subst k; contradiction).
    rewrite !bool_decide_eq_false_2
      by (apply Hk; unfold known_methods;
          repeat first [apply list_elem_of_here | apply list_elem_of_further]).
    eexists; reflexivity.
  - destruct Hfc as [-> | ->]; unfold dispatch; simpl; rewrite Hmsg; eexists; reflexivity.
  - destruct Hfc as [-> | ->]; unfold dispatch; simpl; rewrite Hmsg; eexists; reflexivity.
  - unfold dispatch; simpl; rewrite Hp; eexists; reflexivity.
  - unfold dispatch; simpl; rewrite Hp; eexists; reflexivity.
Qed.

Lemma serve_raise rt req m tr e :
  req_method req = Some m -> m <> "" ->
  dispatch rt m req = (tr, Raise e) ->
  serve rt req
  = tr ++ [Stderr ("Error processing request: " +:+ exn_str e +:+ LF); Stdout terminator].
Proof.
  intros Hm Hne Hd. unfold serve. rewrite Hm.
  destruct m as [|c m]; [congruence|]. rewrite Hd. reflexivity.
Qed.

(** C7, as the code has it.  For a request with an unknown method and for
    a request without a method or without the field its method requires, the
    output is the terminator alone, a line feed and a NUL.  For a request
    whose handling raises an exception, the loop writes the terminator, and
    no error text, behind whatever the handler had written before it raised
    (the primer, the texts streamed so far).  The diagnostic goes to standard
    error, and the loop goes on with the rest of the input. *)
Theorem failed_request_gets_empty_response rt stdin req rest :
  read rt stdin = (JObject req, rest) ->
  (malformed req ->
   exists diagnostic,
     main rt stdin = after [Stderr diagnostic; Stdout terminator] (main rt rest))
  /\ (forall m tr e,
        req_method req = Some m -> m <> "" ->
        dispatch rt m req = (tr, Raise e) ->
        main rt stdin
        = after (tr ++ [Stderr ("Error processing request: " +:+ exn_str e +:+ LF);
                        Stdout terminator])
            (main rt rest))
  /\ snd (main rt rest) <> Unfinished.
Proof.
  intros Hr. rewrite main_unfold, Hr. split; [|split].
  - intros Hmal. destruct (serve_malformed rt req Hmal) as [d Hd].
    exists d. rewrite Hd. reflexivity.
  - intros m tr e Hm Hne Hd. rewrite (serve_raise rt req m tr e Hm Hne Hd). reflexivity.
  - apply main_finishes.
Qed.

Lemma failed_request_gets_empty_response_witness :
  read (sample_runtime mock_tokenizer ([text_chunk "x" 5%Z], Some (Exception "boom")))
    [generate_line; completion_line]
  = (JObject (method_only "generate"), [completion_line])
  /\ malformed (method_only "generate")
  /\ read (sample_runtime mock_tokenizer ([text_chunk "x" 5%Z], Some (Exception "boom")))
       [completion_line]
     = (JObject (completion_request "Once"), [])
  /\ (exists diagnostic,
        main (sample_runtime mock_tokenizer ([text_chunk "x" 5%Z], Some (Exception "boom")))
          [generate_line; completion_line]
        = after [Stderr diagnostic; Stdout terminator]
            (main (sample_runtime mock_tokenizer
                     ([text_chunk "x" 5%Z], Some (Exception "boom")))
               [completion_line]))
  /\ main (sample_runtime mock_tokenizer ([text_chunk "x" 5%Z], Some (Exception "boom")))
       [completion_line]
     = after ([Stderr ("--- prompt" +:+ LF +:+ "Once" +:+ LF); Pull; Stdout "x"]
              ++ [Stderr ("Error processing request: " +:+ "boom" +:+ LF);
                  Stdout terminator])
         (main (sample_runtime mock_tokenizer
                  ([text_chunk "x" 5%Z], Some (Exception "boom"))) []).
Proof.
  assert (H1 : read (sample_runtime mock_tokenizer
                       ([text_chunk "x" 5%Z], Some (Exception "boom")))
                 [generate_line; completion_line]
               = (JObject (method_only "generate"), [completion_line]))
    by (vm_compute; reflexivity).
  assert (H2 : malformed (method_only "generate")).
  { apply (unknown_method _ "generate"); [reflexivity | discriminate |].
    intros H. repeat (apply elem_of_cons in H as [H|H]; [discriminate|]).
    apply elem_of_nil in H. exact H. }
  assert (H3 : read (sample_runtime mock_tokenizer
                       ([text_chunk "x" 5%Z], Some (Exception "boom")))
                 [completion_line]
               = (JObject (completion_request "Once"), []))
    by (vm_compute; reflexivity).
  split; [exact H1|]. split; [exact H2|]. split; [exact H3|]. split.
  - destruct (failed_request_gets_empty_response _ _ _ _ H1) as (Hmal & _ & _).
    exact (Hmal H2).
  - destruct (failed_request_gets_empty_response _ _ _ _ H3) as (_ & Hexn & _).
    apply (Hexn "completion" _ (Exception "boom")); [reflexivity | discriminate |].
    vm_compute. reflexivity.
Defined.

(** A generation that raises after its first chunk: the output for the
    request is the text of that chunk and then the terminator, not the
    terminator alone. *)
Lemma failing_generation_counterexample :
  read (sample_runtime mock_tokenizer ([text_chunk "x" 5%Z], Some (Exception "boom")))
    [completion_line]
  = (JObject (completion_request "Once"), [])
  /\ snd (dispatch
            (sample_runtime mock_tokenizer ([text_chunk "x" 5%Z], Some (Exception "boom")))
            "completion" (completion_request "Once"))
     = Raise (Exception "boom")
  /\ stdout_of
       (fst (main
               (sample_runtime mock_tokenizer
                  ([text_chunk "x" 5%Z], Some (Exception "boom")))
               [completion_line]))
     = ["x"; terminator]
  /\ stdout_of
       (fst (main
               (sample_runtime mock_tokenizer
                  ([text_chunk "x" 5%Z], Some (Exception "boom")))
               [completion_line]))
     <> [terminator].
Proof.
  split; [vm_compute; reflexivity|]. split; [vm_compute; reflexivity|].
  split; [vm_compute; reflexivity|]. vm_compute. discriminate.
Qed.

(** ** Input that is not JSON *)

(** C4, as the code has it.  For input of which no accumulated prefix is a
    JSON document, a malformed request that nothing completes, the loop
    writes no response: [read] adds line after line to its buffer, has
    nothing to return at the end of the input, and the loop is left without
    a write. *)
Theorem unparseable_input_gets_no_response rt stdin :
  (forall k, 0 < k <= length stdin -> loads rt (str_concat (take k stdin)) = None) ->
  fst (read rt stdin) = JNull /\ main rt stdin = ([], Exited).
Proof.
  intros H.
  assert (Hread : fst (read rt stdin) = JNull).
  { apply read_loop_unparseable. intros k Hk. simpl.
    destruct k as [|k]; [rewrite take_0; apply loads_empty|].
    apply H. lia. }
  split; [exact Hread|].
  rewrite main_unfold. destruct (read rt stdin) as [v rest]. simpl in Hread.
  rewrite Hread. reflexivity.
Qed.

Lemma unparseable_input_gets_no_response_witness :
  (forall k, 0 < k <= length [broken_line; capabilities_line] ->
             loads (sample_runtime mock_tokenizer ([], None))
               (str_concat (take k [broken_line; capabilities_line])) = None)
  /\ main (sample_runtime mock_tokenizer ([], None)) [broken_line; capabilities_line]
     = ([], Exited).
Proof.
  assert (H : forall k, 0 < k <= length [broken_line; capabilities_line] ->
                loads (sample_runtime mock_tokenizer ([], None))
                  (str_concat (take k [broken_line; capabilities_line])) = None).
  { intros k Hk. simpl in Hk. destruct k as [|[|[|k]]]; try lia; vm_compute; reflexivity. }
  split; [exact H|].
  apply (unparseable_input_gets_no_response _ _ H).
Defined.

(** A line that is not JSON gets no terminator, and the well-formed request
    on the next line, answered when it stands alone, is lost with it. *)
Lemma malformed_json_counterexample :
  loads (sample_runtime mock_tokenizer ([], None)) broken_line = None
  /\ main (sample_runtime mock_tokenizer ([], None)) [broken_line; capabilities_line]
     = ([], Exited)
  /\ stdout_of (fst (main (sample_runtime mock_tokenizer ([], None)) [capabilities_line]))
     = ["{methods: capabilities,completion,format_test,chat}" +:+ NUL].
Proof.
  split; [vm_compute; reflexivity|]. split; vm_compute; reflexivity.
Qed.

(* ===================================================================== *)
(** * Part III: further properties of the code                            *)
(* ===================================================================== *)

(** ** The candidate end ids *)

Lemma registered_id_spec enc o x :
  x ∈ registered_id enc o
  <-> exists s z, o = Some s /\ s <> "" /\ enc !! s = Some z /\ x = Some z.
Proof.
  unfold registered_id. destruct o as [s|].
  - case_bool_decide as Hs.
    + rewrite elem_of_nil. split; [tauto|]. intros (s' & z & [= <-] & Hne & _). congruence.
    + destruct (enc !! s) as [z|] eqn:E.
      * rewrite list_elem_of_singleton. split.
        -- intros ->. exists s, z. auto.
        -- intros (s' & z' & [= <-] & _ & Hz & ->). congruence.
      * rewrite elem_of_nil. split; [tauto|].
        intros (s' & z' & [= <-] & _ & Hz & _). congruence.
  - rewrite elem_of_nil. split; [tauto|]. intros (s & z & H & _). discriminate.
Qed.

(** X1.  The candidate end ids are: the [eos_token_id] attribute when the
    tokenizer has it, the id registered for [<end_of_turn>], and the ids
    registered for the non-empty texts the special-token map gives for
    [eos_token] and [eoi_token]; the last two kinds need the encoder of added
    tokens. *)
Theorem end_token_ids_spec t x :
  x ∈ end_token_ids t
  <-> eos_token_id t = Some x
      \/ exists enc z,
           added_tokens_encoder t = Some enc /\ x = Some z
           /\ (enc !! "<end_of_turn>" = Some z
               \/ exists sm key s,
                    special_tokens_map t = Some sm
                    /\ (key = "eos_token" \/ key = "eoi_token")
                    /\ sm !! key = Some s /\ s <> "" /\ enc !! s = Some z).
Proof.
  unfold end_token_ids. rewrite !elem_of_app.
  assert (Heos : x ∈ match eos_token_id t with Some id => [id] | None => [] end
                 <-> eos_token_id t = Some x).
  { destruct (eos_token_id t) as [id|].
    - rewrite list_elem_of_singleton. split; congruence.
    - rewrite elem_of_nil. split; [tauto | discriminate]. }
  rewrite Heos. clear Heos.
  destruct (added_tokens_encoder t) as [enc|].
  - assert (Hturn : x ∈ concat (map (fun token_str =>
                                match enc !! token_str with
                                | Some token_id => [Some token_id]
                                | None => []
                                end) ["<end_of_turn>"])
                    <-> exists z, x = Some z /\ enc !! "<end_of_turn>" = Some z).
    { simpl. rewrite app_nil_r. destruct (enc !! "<end_of_turn>") as [z|].
      - rewrite list_elem_of_singleton. split.
        + intros ->. eauto.
        + intros (z' & -> & [= ->]). reflexivity.
      - rewrite elem_of_nil. split; [tauto|]. intros (z & _ & H). discriminate. }
    rewrite Hturn. clear Hturn.
    destruct (special_tokens_map t) as [sm|].
    + simpl. rewrite app_nil_r, elem_of_app, !registered_id_spec. split.
      * intros [[H|H]|[H|H]].
        -- destruct H as (s & z & Hs & Hne & Hz & ->). right. exists enc, z.
           split; [reflexivity|]. split; [reflexivity|]. right.
           exists sm, "eos_token", s. auto.
        -- destruct H as (s & z & Hs & Hne & Hz & ->). right. exists enc, z.
           split; [reflexivity|]. split; [reflexivity|]. right.
           exists sm, "eoi_token", s. auto.
        -- destruct H as (z & -> & Hz). right. exists enc, z. auto.
        -- left. exact H.
      * intros [H|(enc' & z & [= <-] & -> & [Hz|(sm' & key & s & [= <-] & Hkey & Hs & Hne & Hz)])].
        -- right. right. exact H.
        -- right. left. eauto.
        -- left. destruct Hkey as [-> | ->]; [left | right]; exists s, z; auto.
    + split.
      * intros [H|[H|H]].
        -- apply elem_of_nil in H. contradiction.
        -- destruct H as (z & -> & Hz). right. exists enc, z. auto.
        -- left. exact H.
      * intros [H|(enc' & z & [= <-] & -> & [Hz|(sm' & key & s & Hsm & _)])].
        -- right. right. exact H.
        -- right. left. eauto.
        -- discriminate.
  - assert (Hempty : (match special_tokens_map t with
                      | Some _ => @nil (option Z)
                      | None => []
                      end) = []) by (destruct (special_tokens_map t); reflexivity).
    rewrite Hempty, !elem_of_nil. split.
    + intros [[]|[[]|H]]. left. exact H.
    + intros [H|(enc & z & He & _)]; [right; right; exact H | discriminate].
Qed.

(** X2.  A chunk whose [token] is the value of the tokenizer's
    [eos_token_id] is an end marker whatever its [finish_reason] says (a
    reason such as [length] does not veto it); this holds as well when both
    values are [None]. *)
Theorem eos_token_id_always_detected c t id :
  eos_token_id t = Some id -> token c = Some id -> is_eod_token c t = true.
Proof.
  intros Heos Htok. unfold is_eod_token. rewrite Htok.
  destruct (bool_decide (finish_reason c = Some "stop")); [reflexivity|].
  rewrite bool_decide_eq_true_2; [reflexivity|].
  unfold end_token_ids. rewrite Heos, !elem_of_app. right. right. apply list_elem_of_here.
Qed.

Lemma eos_token_id_always_detected_witness :
  eos_token_id gemma_tokenizer = Some (Some 1%Z)
  /\ token (length_chunk 1) = Some (Some 1%Z)
  /\ finish_reason (length_chunk 1) = Some "length"
  /\ is_eod_token (length_chunk 1) gemma_tokenizer = true.
Proof.
  split; [reflexivity|]. split; [reflexivity|]. split; [reflexivity|].
  apply (eos_token_id_always_detected (length_chunk 1) gemma_tokenizer (Some 1%Z));
    reflexivity.
Defined.

(** ** The text a generation puts out *)

Lemma str_remove_nul_app a b :
  str_remove_nul (a +:+ b) = str_remove_nul a +:+ str_remove_nul b.
Proof.
  induction a as [|c a IH]; [reflexivity|].
  rewrite str_app_cons. simpl. destruct (Ascii.eqb c "000"); [exact IH|].
  rewrite str_app_cons, IH. reflexivity.
Qed.

Lemma str_remove_nul_id s : count_nul s = 0 -> str_remove_nul s = s.
Proof.
  induction s as [|c s IH]; [reflexivity|]. simpl.
  destruct (Ascii.eqb c "000"); [discriminate|]. simpl. intros H. rewrite IH by exact H.
  reflexivity.
Qed.

Lemma str_concat_written cs :
  str_concat (map written cs) = str_remove_nul (str_concat (map text cs)).
Proof.
  induction cs as [|c cs IH]; [reflexivity|].
  simpl. rewrite str_remove_nul_app, IH. reflexivity.
Qed.

Lemma count_nul_texts cs :
  Forall (fun c => count_nul (text c) = 0) cs -> count_nul (str_concat (map text cs)) = 0.
Proof.
  induction 1 as [|c cs Hc _ IH]; [reflexivity|].
  simpl. rewrite count_nul_app, Hc, IH. reflexivity.
Qed.

Lemma stream_loop_upto rt (pre tail : list Chunk) :
  Forall (fun c => is_eod_token c (tokenizer rt) = false) pre ->
  tail = [] \/ (exists last post, tail = last :: post
                                  /\ is_eod_token last (tokenizer rt) = true) ->
  exists b : bool,
    stream_loop rt false (pre ++ tail) None
    = (flat_map chunk_events pre ++ (if b then [Pull; Stdout terminator] else []),
       Return b).
Proof.
  intros Hpre Htail. rewrite (stream_loop_texts _ _ _ _ Hpre).
  destruct Htail as [-> | (last & post & -> & Hlast)].
  - exists false. reflexivity.
  - exists true. rewrite (stream_loop_eod _ _ _ _ _ Hlast). reflexivity.
Qed.

(** X3.  When the generation sequence ends without an exception, what
    [generate_text] puts on standard output is, taken together, the texts of
    the chunks before the first end marker (all of them when there is none)
    with their NUL characters removed, followed by the terminator; texts
    without a NUL arrive unchanged. *)
Theorem generate_text_output rt prompt options (pre tail : list Chunk) :
  stream_generate rt prompt (final_options options) = (pre ++ tail, None) ->
  Forall (fun c => is_eod_token c (tokenizer rt) = false) pre ->
  tail = [] \/ (exists last post, tail = last :: post
                                  /\ is_eod_token last (tokenizer rt) = true) ->
  str_concat (stdout_of (fst (generate_text rt prompt options)))
  = str_remove_nul (str_concat (map text pre)) +:+ terminator
  /\ (Forall (fun c => count_nul (text c) = 0) pre ->
      str_concat (stdout_of (fst (generate_text rt prompt options)))
      = str_concat (map text pre) +:+ terminator).
Proof.
  intros Hgen Hpre Htail.
  destruct (stream_loop_upto rt pre tail Hpre Htail) as [b Hloop].
  rewrite (generate_text_unfold _ _ _ _ _ _ _ Hgen Hloop). cbn [fst].
  assert (Hout : stdout_of (Stderr ("--- prompt" +:+ LF +:+ prompt +:+ LF)
                              :: (flat_map chunk_events pre
                                  ++ (if b then [Pull; Stdout terminator] else []))
                                 ++ (if b then [] else [Stdout terminator]))
                 = map written pre ++ [terminator]).
  { simpl. rewrite !stdout_of_app, stdout_of_chunks.
    destruct b; simpl; rewrite ?app_nil_r; reflexivity. }
  rewrite Hout, str_concat_app, str_concat_written.
  assert (Hterm : str_concat [terminator] = terminator) by reflexivity.
  rewrite Hterm. split; [reflexivity|].
  intros Hclean. rewrite str_remove_nul_id by (apply count_nul_texts; exact Hclean).
  reflexivity.
Qed.

Lemma generate_text_output_witness :
  stream_generate
    (sample_runtime mock_tokenizer
       ([text_chunk "Hel" 5%Z; text_chunk "lo" 6%Z; stop_chunk; text_chunk "!" 7%Z], None))
    "Hi" (final_options no_options)
  = ([text_chunk "Hel" 5%Z; text_chunk "lo" 6%Z] ++ [stop_chunk; text_chunk "!" 7%Z], None)
  /\ str_concat
       (stdout_of
          (fst (generate_text
                  (sample_runtime mock_tokenizer
                     ([text_chunk "Hel" 5%Z; text_chunk "lo" 6%Z; stop_chunk;
                       text_chunk "!" 7%Z], None))
                  "Hi" no_options)))
     = "Hello" +:+ terminator.
Proof.
  split; [reflexivity|].
  destruct (generate_text_output
              (sample_runtime mock_tokenizer
                 ([text_chunk "Hel" 5%Z; text_chunk "lo" 6%Z; stop_chunk;
                   text_chunk "!" 7%Z], None))
              "Hi" no_options
              [text_chunk "Hel" 5%Z; text_chunk "lo" 6%Z]
              [stop_chunk; text_chunk "!" 7%Z] eq_refl) as [_ Hclean].
  - repeat constructor.
  - right. exists stop_chunk, [text_chunk "!" 7%Z]. split; reflexivity.
  - apply Hclean. repeat constructor.
Defined.

(** X4.  The options handed to the runtime are the caller's, with
    [max_tokens] set to 1000 only when the caller gave none; every other key
    and the primer entry pass unchanged, and no key is added. *)
Theorem final_options_spec options k :
  opt_primer (final_options options) = opt_primer options
  /\ opt_other (final_options options) !! k
     = match opt_other options !! k with
       | Some v => Some v
       | None => if bool_decide (k = "max_tokens") then Some (OptInt 1000%Z) else None
       end.
Proof.
  split; [reflexivity|]. unfold final_options, default_options. simpl.
  rewrite lookup_union. destruct (opt_other options !! k) as [v|] eqn:E; simpl.
  - destruct (({["max_tokens" := OptInt 1000%Z]} : gmap string optval) !! k); reflexivity.
  - case_bool_decide as Hk.
    + subst k. rewrite lookup_singleton_eq. reflexivity.
    + rewrite lookup_singleton_ne by congruence. reflexivity.
Qed.

(** ** Failures during generation *)

Lemma stream_loop_fails rt pre e :
  Forall (fun c => is_eod_token c (tokenizer rt) = false) pre ->
  stream_loop rt false pre (Some e) = (flat_map chunk_events pre, Raise e).
Proof.
  intros Hpre. rewrite <- (app_nil_r pre) at 1.
  rewrite (stream_loop_texts _ _ _ _ Hpre). simpl. rewrite app_nil_r. reflexivity.
Qed.

(** X5.  A [completion] request whose generation raises after some chunks,
    none of them an end marker: the texts of these chunks have been written,
    the exception is caught by the loop, and the response is closed by the
    terminator, so the caller sees the partial text as an ordinary
    response. *)
Theorem completion_failure_is_terminated rt req prompt pre e :
  req_method req = Some "completion" ->
  req_prompt req = Some prompt -> prompt <> "" ->
  stream_generate rt prompt (final_options (options_of req)) = (pre, Some e) ->
  Forall (fun c => is_eod_token c (tokenizer rt) = false) pre ->
  serve rt req
  = Stderr ("--- prompt" +:+ LF +:+ prompt +:+ LF)
      :: flat_map chunk_events pre
      ++ [Stderr ("Error processing request: " +:+ exn_str e +:+ LF); Stdout terminator]
  /\ stdout_of (serve rt req) = map written pre ++ [terminator].
Proof.
  intros Hm Hp Hne Hgen Hpre.
  assert (Hserve : serve rt req
                   = Stderr ("--- prompt" +:+ LF +:+ prompt +:+ LF)
                       :: flat_map chunk_events pre
                       ++ [Stderr ("Error processing request: " +:+ exn_str e +:+ LF);
                           Stdout terminator]).
  { unfold serve. rewrite Hm. unfold dispatch. simpl. rewrite Hp.
    destruct prompt as [|c p]; [congruence|]. unfold handle_completion.
    rewrite (generate_text_raise _ _ _ _ _ _ _ Hgen (stream_loop_fails rt pre e Hpre)).
    reflexivity. }
  split; [exact Hserve|]. rewrite Hserve. simpl.
  rewrite stdout_of_app, stdout_of_chunks. reflexivity.
Qed.

Lemma completion_failure_is_terminated_witness :
  stdout_of
    (serve (sample_runtime mock_tokenizer
              ([text_chunk "Hel" 5%Z; text_chunk "lo" 6%Z], Some (Exception "out of memory")))
       (completion_request "Once"))
  = ["Hel"; "lo"; terminator].
Proof.
  destruct (completion_failure_is_terminated
              (sample_runtime mock_tokenizer
                 ([text_chunk "Hel" 5%Z; text_chunk "lo" 6%Z],
                  Some (Exception "out of memory")))
              (completion_request "Once") "Once"
              [text_chunk "Hel" 5%Z; text_chunk "lo" 6%Z] (Exception "out of memory")
              eq_refl eq_refl) as [_ Hout].
  - discriminate.
  - reflexivity.
  - repeat constructor.
  - exact Hout.
Defined.

(** ** One terminator for each request *)

Lemma nul_count_app tr1 tr2 : nul_count (tr1 ++ tr2) = nul_count tr1 + nul_count tr2.
Proof. unfold nul_count. rewrite stdout_of_app, str_concat_app, count_nul_app. reflexivity. Qed.

Lemma nul_count_stderr s tr : nul_count (Stderr s :: tr) = nul_count tr.
Proof. reflexivity. Qed.

Lemma nul_count_pull tr : nul_count (Pull :: tr) = nul_count tr.
Proof. reflexivity. Qed.

Lemma nul_count_stdout s tr : nul_count (Stdout s :: tr) = count_nul s + nul_count tr.
Proof. unfold nul_count. simpl. apply count_nul_app. Qed.

Lemma nul_count_chunks cs : nul_count (flat_map chunk_events cs) = 0.
Proof. unfold nul_count. rewrite stdout_of_chunks. apply count_nul_written. Qed.

Lemma nul_count_chunk c : nul_count (chunk_events c) = 0.
Proof.
  unfold chunk_events. rewrite nul_count_pull, nul_count_stdout.
  unfold written. rewrite count_nul_removed. reflexivity.
Qed.

Lemma nul_count_reject d : nul_count (fst (reject d)) = 1.
Proof. reflexivity. Qed.

Lemma stream_loop_nuls rt chunks failure :
  nul_count (fst (stream_loop rt false chunks failure))
  = match snd (stream_loop rt false chunks failure) with
    | Return true => 1
    | _ => 0
    end.
Proof.
  induction chunks as [|c rest IH].
  - simpl. destruct failure; reflexivity.
  - destruct (is_eod_token c (tokenizer rt)) eqn:E.
    + rewrite (stream_loop_eod _ _ _ _ _ E). reflexivity.
    + rewrite (stream_loop_text _ _ _ _ E). cbn [fst snd].
      rewrite nul_count_app, nul_count_chunk, IH. reflexivity.
Qed.

Lemma generate_text_nuls rt prompt options :
  nul_count (fst (generate_text rt prompt options))
  = match snd (generate_text rt prompt options) with
    | Return _ => 1
    | Raise _ => 0
    end.
Proof.
  destruct (stream_generate rt prompt (final_options options)) as [chunks failure] eqn:Hgen.
  pose proof (stream_loop_nuls rt chunks failure) as Hn.
  destruct (stream_loop rt false chunks failure) as [tr [b|e]] eqn:Hloop.
  - rewrite (generate_text_unfold _ _ _ _ _ _ _ Hgen Hloop). cbn [fst snd] in *.
    rewrite nul_count_stderr, nul_count_app, Hn. destruct b; reflexivity.
  - rewrite (generate_text_raise _ _ _ _ _ _ _ Hgen Hloop). cbn [fst snd] in *.
    rewrite nul_count_stderr. exact Hn.
Qed.

Lemma bind_print {A} s e (m : io A) :
  (print s e;; m) = (Stdout (s +:+ e) :: fst m, snd m).
Proof. destruct m as [tr r]. reflexivity. Qed.

Lemma primed_generation_nuls rt p prompt options :
  count_nul p = 0 ->
  nul_count (fst (print p "";; generate_text rt prompt options))
  = match snd (print p "";; generate_text rt prompt options) with
    | Return _ => 1
    | Raise _ => 0
    end.
Proof.
  intros Hp. rewrite bind_print. cbn [fst snd].
  rewrite nul_count_stdout, count_nul_app, Hp. simpl. apply generate_text_nuls.
Qed.

Lemma handle_chat_nuls rt messages primer options :
  (forall p, primer = Some p -> count_nul p = 0) ->
  nul_count (fst (handle_chat rt messages primer options))
  = match snd (handle_chat rt messages primer options) with
    | Return _ => 1
    | Raise _ => 0
    end.
Proof.
  intros Hp. unfold handle_chat.
  destruct (supports_chat_template rt); simpl negb; cbv iota.
  - destruct (apply_chat_template (tokenizer rt)) as [render|]; [|reflexivity].
    destruct primer as [p|].
    + destruct (render (messages ++ [assistant_turn p]) false) as [s|e]; [|reflexivity].
      rewrite bind_lift_return.
      destruct (primer_splice s p) as [q|e]; [|reflexivity].
      rewrite bind_lift_return. apply primed_generation_nuls, Hp. reflexivity.
    + destruct (render messages true) as [s|e]; [|reflexivity].
      rewrite bind_lift_return. apply generate_text_nuls.
  - destruct primer as [p|].
    + apply primed_generation_nuls, Hp. reflexivity.
    + apply generate_text_nuls.
Qed.

Lemma dispatch_nuls rt method req :
  (forall c, count_nul (json_dumps_capabilities rt c) = 0) ->
  (forall r, count_nul (json_dumps_result rt r) = 0) ->
  (forall p, req_primer req = Some p -> count_nul p = 0) ->
  nul_count (fst (dispatch rt method req))
  = match snd (dispatch rt method req) with
    | Return _ => 1
    | Raise _ => 0
    end.
Proof.
  intros Hcaps Hres Hp. unfold dispatch.
  assert (Hjson : forall s, count_nul s = 0 -> nul_count (fst (print s NUL)) = 1).
  { intros s Hs. unfold print. cbn [fst]. rewrite nul_count_stdout, count_nul_app, Hs.
    reflexivity. }
  repeat case_bool_decide.
  - apply Hjson, Hcaps.
  - destruct (req_messages req) as [[|m ms]|]; try reflexivity.
    apply Hjson, Hres.
  - destruct (req_messages req) as [[|m ms]|]; try reflexivity.
    apply handle_chat_nuls, Hp.
  - destruct (req_prompt req) as [[|c p]|]; try reflexivity.
    apply generate_text_nuls.
  - reflexivity.
Qed.

Lemma serve_nuls rt req :
  (forall c, count_nul (json_dumps_capabilities rt c) = 0) ->
  (forall r, count_nul (json_dumps_result rt r) = 0) ->
  (forall p, req_primer req = Some p -> count_nul p = 0) ->
  nul_count (serve rt req) = 1.
Proof.
  intros Hcaps Hres Hp. unfold serve.
  destruct (req_method req) as [[|c m]|]; try reflexivity.
  pose proof (dispatch_nuls rt (String c m) req Hcaps Hres Hp) as Hd.
  destruct (dispatch rt (String c m) req) as [tr [[]|e]]; cbn [fst snd] in *.
  - exact Hd.
  - unfold try_except. simpl. rewrite nul_count_app, Hd. reflexivity.
Qed.

(** X6.  Framing.  When the JSON encoder puts no NUL into its output and
    the primer of the request holds none, the response to a request object
    holds exactly one NUL, whatever the method, the fields and the course of
    the generation: every path through the loop body ends the response
    once. *)
Theorem serve_writes_one_nul rt req :
  (forall c, count_nul (json_dumps_capabilities rt c) = 0) ->
  (forall r, count_nul (json_dumps_result rt r) = 0) ->
  (forall p, req_primer req = Some p -> count_nul p = 0) ->
  nul_count (serve rt req) = 1.
Proof. apply serve_nuls. Qed.

Lemma serve_writes_one_nul_witness :
  nul_count
    (serve (escaping_runtime mock_tokenizer
              ([text_chunk "Hel" 5%Z; text_chunk "lo" 6%Z], Some (Exception "out of memory")))
       (chat_request [msg "user" "Hi"] (Some "Sure")))
  = 1.
Proof.
  apply (serve_writes_one_nul
           (escaping_runtime mock_tokenizer
              ([text_chunk "Hel" 5%Z; text_chunk "lo" 6%Z], Some (Exception "out of memory")))
           (chat_request [msg "user" "Hi"] (Some "Sure"))).
  - intros c. apply count_nul_removed.
  - intros r. apply count_nul_removed.
  - intros p [= <-]. reflexivity.
Defined.

(** ** Formatting for [chat] and for [format_test] *)

(** X7.  [format_test] tells what [chat] will do with the same messages and
    primer: the prompt it reports is the prompt [chat] generates from, after
    having written the primer; and when it reports an error, [chat] raises
    the exception with that text before writing anything. *)
Theorem format_test_predicts_chat rt messages primer other options :
  (forall q,
      formatted_prompt
        (format_test_body rt messages {| opt_primer := primer; opt_other := other |})
      = Some q ->
      handle_chat rt messages primer options
      = match primer with
        | Some p => print p "";; generate_text rt q options
        | None => generate_text rt q options
        end)
  /\ (forall text,
        error (format_test_body rt messages {| opt_primer := primer; opt_other := other |})
        = Some text ->
        handle_chat rt messages primer options = ([], Raise (Exception text))).
Proof.
  unfold format_test_body, handle_chat. cbn [opt_primer].
  destruct (supports_chat_template rt); cbn [negb]; cbv iota.
  - destruct (apply_chat_template (tokenizer rt)) as [render|].
    + destruct primer as [p|].
      * destruct (render (messages ++ [assistant_turn p]) false) as [s|[e]].
        -- rewrite bind_lift_return.
           destruct (primer_splice s p) as [q|[e]]; cbn [formatted_prompt error]; split.
           ++ intros q' [= <-]. rewrite bind_lift_return. reflexivity.
           ++ discriminate.
           ++ discriminate.
           ++ intros text [= <-]. reflexivity.
        -- cbn [formatted_prompt error]. split; [discriminate|].
           intros text [= <-]. reflexivity.
      * destruct (render messages true) as [s|[e]]; cbn [formatted_prompt error]; split.
        -- intros q' [= <-]. rewrite bind_lift_return. reflexivity.
        -- discriminate.
        -- discriminate.
        -- intros text [= <-]. reflexivity.
    + destruct primer as [p|]; cbn [formatted_prompt error];
        (split; [discriminate|]); intros text [= <-]; reflexivity.
  - destruct primer as [p|]; cbn [formatted_prompt error];
      (split; [|discriminate]); intros q [= <-]; reflexivity.
Qed.

(** X8.  What [format_test] reports is either a prompt or an error, never
    both and never neither; [template_applied] is set exactly when the
    template path was taken and ended without an exception; and the messages
    are echoed exactly when the template path was taken. *)
Theorem format_test_result_shape rt messages options :
  (formatted_prompt (format_test_body rt messages options) = None
   <-> is_Some (error (format_test_body rt messages options)))
  /\ (template_applied (format_test_body rt messages options) = true
      <-> supports_chat_template rt = true
          /\ error (format_test_body rt messages options) = None)
  /\ (is_Some (model_specific_processing (format_test_body rt messages options))
      <-> supports_chat_template rt = true).
Proof.
  unfold format_test_body.
  destruct (supports_chat_template rt).
  - match goal with
    | |- context [match ?x with Return _ => _ | Raise _ => _ end] => destruct x as [q|e]
    end; simpl.
    + split; [split; [discriminate | intros [x Hx]; discriminate]|].
      split; [tauto|]. split; eauto.
    + split; [split; eauto|].
      split; [split; [discriminate | intros [_ H]; discriminate]|].
      split; eauto.
  - simpl. split; [split; [discriminate | intros [x Hx]; discriminate]|].
    split; [split; [discriminate | intros [H _]; discriminate]|].
    split; [intros [x Hx]; discriminate | discriminate].
Qed.

(** X9.  An empty primer on the template path is an error: the split on
    the empty separator raises, [chat] writes nothing before that and the
    request gets the bare terminator, and [format_test] reports the text of
    the exception instead of a prompt. *)
Theorem empty_primer_is_an_error rt render messages s :
  supports_chat_template rt = true ->
  apply_chat_template (tokenizer rt) = Some render ->
  render (messages ++ [assistant_turn ""]) false = Return s ->
  (forall options,
      handle_chat rt messages (Some "") options
      = ([], Raise (Exception "empty separator")))
  /\ (forall options,
        opt_primer options = Some "" ->
        formatted_prompt (format_test_body rt messages options) = None
        /\ error (format_test_body rt messages options) = Some "empty separator")
  /\ (forall req,
        req_method req = Some "chat" -> req_messages req = Some messages ->
        messages <> [] -> req_primer req = Some "" ->
        stdout_of (serve rt req) = [terminator]).
Proof.
  intros Hsup Hren Hs.
  assert (Hchat : forall options,
             handle_chat rt messages (Some "") options
             = ([], Raise (Exception "empty separator"))).
  { intros options. unfold handle_chat. rewrite Hsup. simpl negb. cbv iota.
    rewrite Hren, Hs, bind_lift_return. reflexivity. }
  split; [exact Hchat|]. split.
  - intros options Hp. unfold format_test_body. rewrite Hsup, Hp, Hren, Hs.
    split; reflexivity.
  - intros req Hm Hmsgs Hne Hp. unfold serve. rewrite Hm. unfold dispatch. simpl.
    rewrite Hmsgs, Hp. destruct messages as [|m ms]; [congruence|].
    rewrite Hchat. reflexivity.
Qed.

Lemma empty_primer_is_an_error_witness :
  supports_chat_template (sample_runtime mock_tokenizer ([], None)) = true
  /\ sample_render ([msg "user" "Hi"] ++ [assistant_turn ""]) false
     = Return "<|user|>Hi<|end|><|assistant|><|end|>"
  /\ stdout_of (serve (sample_runtime mock_tokenizer ([], None))
                  (chat_request [msg "user" "Hi"] (Some "")))
     = [terminator].
Proof.
  assert (H2 : sample_render ([msg "user" "Hi"] ++ [assistant_turn ""]) false
               = Return "<|user|>Hi<|end|><|assistant|><|end|>")
    by (vm_compute; reflexivity).
  split; [reflexivity|]. split; [exact H2|].
  destruct (empty_primer_is_an_error
              (sample_runtime mock_tokenizer ([], None)) sample_render
              [msg "user" "Hi"] _ eq_refl eq_refl H2) as (_ & _ & Hserve).
  apply Hserve; [reflexivity | reflexivity | discriminate | reflexivity].
Defined.

(** X10.  Splicing a primer that occurs in the text only truncates: the
    result is a prefix of the text, it ends with the primer, and the part
    that is cut off does not contain the primer. *)
Theorem primer_splice_truncates s p q :
  primer_splice s p = Return q ->
  str_occurs p s ->
  exists pre tail,
    q = pre +:+ p /\ s = q +:+ tail /\ ~ str_occurs p tail.
Proof.
  intros Hq Hocc.
  assert (Hp : p <> "") by (intros ->; discriminate Hq).
  rewrite primer_splice_unfold in Hq by assumption. injection Hq as <-.
  assert (Hp' : chars p <> []) by (rewrite chars_empty; assumption).
  rewrite str_occurs_chars in Hocc.
  destruct (Seq.find (chars p) (chars s)) as [i|] eqn:Hf;
    [|apply find_None in Hf; contradiction].
  destruct (split_go_scan (length (chars s)) _ _ _ Hp' (le_n _) Hf)
    as (j & _ & _ & Hjoin & Hoccj & Hlast).
  unfold Seq.split. rewrite Hjoin.
  destruct Hoccj as (pre & post & Hs & Hlen).
  assert (Htake : take j (chars s) = pre)
    by (rewrite Hs, <- Hlen; apply take_app_length).
  assert (Hdrop : drop (j + length (chars p)) (chars s) = post).
  { rewrite Hs, <- Hlen, <- drop_drop, drop_app_length, drop_app_length. reflexivity. }
  rewrite Htake. exists (of_chars pre), (of_chars post).
  split; [reflexivity|]. split.
  - apply chars_inj. rewrite !chars_app, !chars_of_chars, <- app_assoc. exact Hs.
  - apply not_occurs_by_find. rewrite chars_of_chars, <- Hdrop. exact Hlast.
Qed.

Lemma primer_splice_truncates_witness :
  primer_splice "<|user|>Sure?<|end|><|assistant|>Sure<|end|>" "Sure"
  = Return "<|user|>Sure?<|end|><|assistant|>Sure"
  /\ str_occurs "Sure" "<|user|>Sure?<|end|><|assistant|>Sure<|end|>"
  /\ exists pre tail,
       "<|user|>Sure?<|end|><|assistant|>Sure" = pre +:+ "Sure"
       /\ "<|user|>Sure?<|end|><|assistant|>Sure<|end|>"
          = "<|user|>Sure?<|end|><|assistant|>Sure" +:+ tail
       /\ ~ str_occurs "Sure" tail.
Proof.
  assert (H1 : primer_splice "<|user|>Sure?<|end|><|assistant|>Sure<|end|>" "Sure"
               = Return "<|user|>Sure?<|end|><|assistant|>Sure")
    by (vm_compute; reflexivity).
  assert (H2 : str_occurs "Sure" "<|user|>Sure?<|end|><|assistant|>Sure<|end|>")
    by (exists "<|user|>", "?<|end|><|assistant|>Sure<|end|>"; reflexivity).
  split; [exact H1|]. split; [exact H2|].
  exact (primer_splice_truncates _ _ _ H1 H2).
Defined.

(** ** More on the fallback serialization *)

Lemma fallback_lines_not_nil (messages : list Message) :
  messages <> [] -> concat (map fallback_lines messages) <> [].
Proof. destruct messages; [congruence | discriminate]. Qed.

(** X11.  The fallback serialization of a conversation in two parts is the
    serialization of the first part, a line feed, and the serialization of
    the second part: blocks never merge across messages. *)
Theorem generate_merged_prompt_app (a b : list Message) :
  a <> [] -> b <> [] ->
  generate_merged_prompt (a ++ b)
  = generate_merged_prompt a +:+ LF +:+ generate_merged_prompt b.
Proof.
  intros Ha Hb. unfold generate_merged_prompt.
  rewrite !foldl_extend_parts. simpl app.
  rewrite map_app, concat_app.
  apply str_join_app; apply fallback_lines_not_nil; assumption.
Qed.

Lemma generate_merged_prompt_app_witness :
  [msg "system" " Be nice. "] <> []
  /\ [msg "user" "Hi"] <> []
  /\ generate_merged_prompt ([msg "system" " Be nice. "] ++ [msg "user" "Hi"])
     = generate_merged_prompt [msg "system" " Be nice. "] +:+ LF
       +:+ generate_merged_prompt [msg "user" "Hi"].
Proof.
  split; [discriminate|]. split; [discriminate|].
  apply (generate_merged_prompt_app [msg "system" " Be nice. "] [msg "user" "Hi"]);
    discriminate.
Defined.

Section StripFacts.
Context {A : Type} (ws : A -> bool).
Import Seq.






End StripFacts.




(** ** More on the special tokens *)

Lemma lookup_outside_catalogues t name :
  name ∉ catalogue_names -> get_special_tokens t !! name = None.
Proof.
  unfold catalogue_names, standard_names_list. rewrite !elem_of_app. intros H.
  rewrite get_special_tokens_folds.
  rewrite foldl_record_other by tauto.
  rewrite foldl_record_other by tauto.
  rewrite foldl_record_other by (rewrite standard_names; tauto).
  reflexivity.
Qed.

Lemma elem_of_map_fst {X} (l : list (string * X)) name :
  name ∈ map fst l -> exists x, (name, x) ∈ l.
Proof.
  intros H. apply list_elem_of_fmap in H as ([n x] & -> & Hin). exists x. exact Hin.
Qed.

(** X13.  No false positives: an entry recorded under a name that is not one
    of the four standard names comes from the catalogue entry of that name,
    carries the spellings of the catalogue and the ids the tokenizer resolves
    them to, and none of its ids is the unknown id. *)
Theorem recorded_ids_are_known t name entry :
  get_special_tokens t !! name = Some entry ->
  name ∉ standard_names_list ->
  match entry with
  | PairToken a b =>
      (name, (tok_text a, tok_text b)) ∈ pair_tokens
      /\ tok_id a = convert_tokens_to_ids t (tok_text a)
      /\ tok_id b = convert_tokens_to_ids t (tok_text b)
      /\ tok_id a <> unk_token_id t /\ tok_id b <> unk_token_id t
  | SingleToken a =>
      (name, tok_text a) ∈ single_tokens
      /\ tok_id a = convert_tokens_to_ids t (tok_text a)
      /\ tok_id a <> unk_token_id t
  end.
Proof.
  intros Hlook Hstd.
  destruct (decide (name ∈ map fst pair_tokens)) as [Hp|Hp].
  - apply elem_of_map_fst in Hp as [[s e] Hin].
    pose proof (lookup_pair t _ Hin) as Hl. simpl in Hl. rewrite Hl in Hlook.
    unfold pair_entry in Hlook. simpl in Hlook.
    destruct (bool_decide (convert_tokens_to_ids t s <> unk_token_id t)) eqn:E1;
      [|discriminate].
    destruct (bool_decide (convert_tokens_to_ids t e <> unk_token_id t)) eqn:E2;
      [|discriminate].
    apply bool_decide_eq_true in E1. apply bool_decide_eq_true in E2.
    simpl in Hlook. injection Hlook as <-. simpl. auto.
  - destruct (decide (name ∈ map fst single_tokens)) as [Hs|Hs].
    + apply elem_of_map_fst in Hs as [txt Hin].
      pose proof (lookup_single t _ Hin) as Hl. simpl in Hl. rewrite Hl in Hlook.
      unfold single_entry in Hlook. simpl in Hlook.
      destruct (bool_decide (convert_tokens_to_ids t txt <> unk_token_id t)) eqn:E1;
        [|discriminate].
      apply bool_decide_eq_true in E1. injection Hlook as <-. simpl. auto.
    + rewrite lookup_outside_catalogues in Hlook; [discriminate|].
      unfold catalogue_names. rewrite !elem_of_app. tauto.
Qed.

Lemma recorded_ids_are_known_witness :
  get_special_tokens mock_tokenizer !! "user"
  = Some (PairToken {| tok_text := "<|user|>"; tok_id := Some 151646%Z |}
                    {| tok_text := "<|/user|>"; tok_id := Some 151648%Z |})
  /\ ("user" ∉ standard_names_list)
  /\ Some 151646%Z <> unk_token_id mock_tokenizer
  /\ Some 151648%Z <> unk_token_id mock_tokenizer.
Proof.
  assert (H1 : get_special_tokens mock_tokenizer !! "user"
               = Some (PairToken {| tok_text := "<|user|>"; tok_id := Some 151646%Z |}
                                 {| tok_text := "<|/user|>"; tok_id := Some 151648%Z |}))
    by (vm_compute; reflexivity).
  assert (H2 : "user" ∉ standard_names_list).
  { intros H. repeat (apply elem_of_cons in H as [H|H]; [discriminate|]).
    apply elem_of_nil in H. exact H. }
  split; [exact H1|]. split; [exact H2|].
  pose proof (recorded_ids_are_known mock_tokenizer "user" _ H1 H2) as H.
  simpl in H. destruct H as (_ & _ & _ & Ha & Hb). split; [exact Ha | exact Hb].
Defined.

(** X14.  Entries are recorded under catalogue names only; and a tokenizer
    that resolves every spelling to its unknown id gets no entry besides the
    standard tokens it declares. *)
Theorem special_token_names t name :
  is_Some (get_special_tokens t !! name) ->
  name ∈ catalogue_names
  /\ ((forall s, convert_tokens_to_ids t s = unk_token_id t) ->
      name ∈ standard_names_list).
Proof.
  intros [entry Hlook]. split.
  - destruct (decide (name ∈ catalogue_names)) as [H|H]; [exact H|].
    rewrite (lookup_outside_catalogues t name H) in Hlook. discriminate.
  - intros Hunk.
    destruct (decide (name ∈ standard_names_list)) as [H|H]; [exact H|]. exfalso.
    destruct (decide (name ∈ map fst pair_tokens)) as [Hp|Hp].
    + apply elem_of_map_fst in Hp as [[s e] Hin].
      pose proof (lookup_pair t _ Hin) as Hl. simpl in Hl. rewrite Hl in Hlook.
      unfold pair_entry in Hlook. simpl in Hlook.
      rewrite (bool_decide_eq_false_2 (convert_tokens_to_ids t s <> unk_token_id t))
        in Hlook by (intros Hne; apply Hne, Hunk).
      discriminate.
    + destruct (decide (name ∈ map fst single_tokens)) as [Hs|Hs].
      * apply elem_of_map_fst in Hs as [txt Hin].
        pose proof (lookup_single t _ Hin) as Hl. simpl in Hl. rewrite Hl in Hlook.
        unfold single_entry in Hlook. simpl in Hlook.
        rewrite (bool_decide_eq_false_2 (convert_tokens_to_ids t txt <> unk_token_id t))
          in Hlook by (intros Hne; apply Hne, Hunk).
        discriminate.
      * rewrite lookup_outside_catalogues in Hlook; [discriminate|].
        unfold catalogue_names. rewrite !elem_of_app. tauto.
Qed.

Lemma special_token_names_witness :
  is_Some (get_special_tokens tool_tokenizer !! "bos")
  /\ (forall s, convert_tokens_to_ids tool_tokenizer s = unk_token_id tool_tokenizer)
  /\ "bos" ∈ standard_names_list.
Proof.
  assert (H1 : is_Some (get_special_tokens tool_tokenizer !! "bos"))
    by (vm_compute; eauto).
  assert (H2 : forall s, convert_tokens_to_ids tool_tokenizer s
                         = unk_token_id tool_tokenizer) by reflexivity.
  split; [exact H1|]. split; [exact H2|].
  destruct (special_token_names tool_tokenizer "bos" H1) as [_ H]. exact (H H2).
Defined.

(** X15.  The entry [eod] is read from the attribute [eod_token_id]: it is
    recorded, with the text of [eos_token], exactly when the tokenizer has
    [eos_token] and that attribute; the attribute [eos_token_id] plays no
    part, so a tokenizer that declares only [eos_token] and [eos_token_id]
    gets no [eod] entry. *)
Theorem eod_entry_needs_eod_token_id t :
  get_special_tokens t !! "eod"
  = match eos_token t, eod_token_id t with
    | Some tok, Some id => Some (SingleToken {| tok_text := tok; tok_id := Some id |})
    | _, _ => None
    end.
Proof.
  assert (Hin : ("eod", eos_token t) ∈ standard_tokens t) by apply list_elem_of_here.
  pose proof (lookup_standard t _ Hin) as Hl. simpl in Hl. rewrite Hl.
  unfold standard_entry. simpl.
  destruct (eos_token t); [|reflexivity].
  change (getattr_token_id t "eod") with (eod_token_id t).
  destruct (eod_token_id t); reflexivity.
Qed.

(** ** More on the capabilities *)


(** X17.  The template information: it is there exactly when the tokenizer
    has the rendering function; the supported roles are those of the five
    candidate roles for which rendering a one-message conversation does not
    raise; a preview is there exactly when some role is supported, and when
    none of [system], [user], [assistant] is among them it is the rendering
    of the empty conversation; detected constraints are never part of it. *)
Theorem chat_template_info_spec t :
  (get_chat_template_info t = None <-> apply_chat_template t = None)
  /\ (forall render info,
        apply_chat_template t = Some render ->
        get_chat_template_info t = Some info ->
        template_string info = chat_template t
        /\ (forall r, r ∈ supported_roles info
                      <-> r ∈ test_roles
                          /\ succeeds (render [msg r "test"] false) = true)
        /\ (preview info = None <-> supported_roles info = [])
        /\ (supported_roles info <> [] ->
            "system" ∉ supported_roles info -> "user" ∉ supported_roles info ->
            "assistant" ∉ supported_roles info ->
            preview info
            = Some (match render [] false with
                    | Return p => p
                    | Raise e => "Preview error: " +:+ exn_str e
                    end))
        /\ constraints info = ∅).
Proof.
  split.
  - unfold get_chat_template_info. destruct (apply_chat_template t); split; congruence.
  - intros render info Hr. unfold get_chat_template_info. rewrite Hr.
    intros [= <-]. cbn [template_string supported_roles preview constraints].
    split; [reflexivity|]. split; [|split; [|split; [|reflexivity]]].
    + intros r. rewrite list_elem_of_filter. unfold msg. tauto.
    + destruct (filter _ test_roles) as [|r0 roles]; [tauto|].
      split; [|discriminate].
      destruct (render _ false); discriminate.
    + intros Hne Hs Hu Ha.
      destruct (filter _ test_roles) as [|r0 roles] eqn:E; [congruence|].
      rewrite !bool_decide_eq_false_2 by assumption. simpl.
      destruct (render [] false); reflexivity.
Qed.

Lemma chat_template_info_spec_witness :
  apply_chat_template tool_tokenizer = Some tool_render
  /\ exists info,
       get_chat_template_info tool_tokenizer = Some info
       /\ supported_roles info = ["tool"; "function"]
       /\ preview info = Some "".
Proof.
  split; [reflexivity|].
  destruct (get_chat_template_info tool_tokenizer) as [info|] eqn:E;
    [|vm_compute in E; discriminate].
  exists info. split; [reflexivity|].
  destruct (chat_template_info_spec tool_tokenizer) as [_ H].
  destruct (H tool_render info eq_refl E) as (_ & _ & _ & Hprev & _).
  assert (Hroles : supported_roles info = ["tool"; "function"])
    by (vm_compute in E; injection E as <-; reflexivity).
  split; [exact Hroles|].
  rewrite Hprev; [reflexivity | | | |]; rewrite Hroles.
  - discriminate.
  - intros Hin. repeat (apply elem_of_cons in Hin as [Hin|Hin]; [discriminate|]).
    apply elem_of_nil in Hin. exact Hin.
  - intros Hin. repeat (apply elem_of_cons in Hin as [Hin|Hin]; [discriminate|]).
    apply elem_of_nil in Hin. exact Hin.
  - intros Hin. repeat (apply elem_of_cons in Hin as [Hin|Hin]; [discriminate|]).
    apply elem_of_nil in Hin. exact Hin.
Defined.

(** ** More on the constraint inference *)

Lemma run_pattern_other render acc p (name : string) :
  pattern_name p <> name -> run_pattern render acc p !! name = acc !! name.
Proof.
  intros Hne. unfold run_pattern.
  destruct (render (pattern_messages p) false); apply lookup_insert_ne; exact Hne.
Qed.

Lemma run_pattern_own render acc p :
  has_error (run_pattern render acc p !! pattern_name p)
  = negb (succeeds (render (pattern_messages p) false)).
Proof.
  unfold run_pattern.
  destruct (render (pattern_messages p) false); rewrite lookup_insert_eq; reflexivity.
Qed.

Lemma run_patterns_other render l acc (name : string) :
  name ∉ map pattern_name l ->
  foldl (run_pattern render) acc l !! name = acc !! name.
Proof.
  revert acc; induction l as [|p l IH]; intros acc Hn; simpl; [reflexivity|].
  simpl in Hn. apply not_elem_of_cons in Hn as [Hne Hn].
  rewrite IH by exact Hn. apply run_pattern_other. congruence.
Qed.

Lemma run_patterns_own render l acc p :
  NoDup (map pattern_name l) -> p ∈ l ->
  has_error (foldl (run_pattern render) acc l !! pattern_name p)
  = negb (succeeds (render (pattern_messages p) false)).
Proof.
  revert acc; induction l as [|q l IH]; intros acc Hnd Hin.
  - apply elem_of_nil in Hin. contradiction.
  - simpl in Hnd. apply NoDup_cons in Hnd as [Hq Hnd].
    apply elem_of_cons in Hin as [->|Hin]; simpl.
    + rewrite run_patterns_other by exact Hq. apply run_pattern_own.
    + apply IH; assumption.
Qed.

Lemma existsb_own (f : TestPattern -> bool) l p :
  NoDup (map pattern_name l) -> p ∈ l ->
  existsb (fun q => String.eqb (pattern_name q) (pattern_name p) && f q) l = f p.
Proof.
  induction l as [|q l IH]; intros Hnd Hin.
  - apply elem_of_nil in Hin. contradiction.
  - simpl in Hnd. apply NoDup_cons in Hnd as [Hq Hnd].
    apply elem_of_cons in Hin as [->|Hin]; simpl.
    + rewrite String.eqb_refl. simpl. destruct (f q) eqn:E; [reflexivity|].
      apply not_true_is_false. intros Hex. apply existsb_exists in Hex as (r & Hr & Hrf).
      apply andb_true_iff in Hrf as [Hname _]. apply String.eqb_eq in Hname.
      apply Hq. rewrite <- Hname. apply list_elem_of_fmap. exists r. split; [reflexivity|].
      apply list_elem_of_In. exact Hr.
    + assert (Hne : String.eqb (pattern_name q) (pattern_name p) = false).
      { apply String.eqb_neq. intros Heq. apply Hq. rewrite Heq.
        apply list_elem_of_fmap. exists p. split; [reflexivity | exact Hin]. }
      rewrite Hne. simpl. apply IH; assumption.
Qed.

Lemma test_pattern_names_NoDup : NoDup (map pattern_name _get_test_patterns).
Proof. apply (bool_decide_unpack _). vm_compute. exact I. Qed.

Lemma has_error_probe render name :
  name ∈ map pattern_name _get_test_patterns ->
  has_error (foldl (run_pattern render) ∅ _get_test_patterns !! name)
  = probe_failed render name.
Proof.
  intros Hin. apply list_elem_of_fmap in Hin as (p & -> & Hp).
  rewrite (run_patterns_own _ _ _ _ test_pattern_names_NoDup Hp).
  unfold probe_failed.
  rewrite (existsb_own (fun q => negb (succeeds (render (pattern_messages q) false)))
             _ _ test_pattern_names_NoDup Hp).
  reflexivity.
Qed.

Lemma rule_patterns_exist name :
  name ∈ rule_patterns -> name ∈ map pattern_name _get_test_patterns.
Proof.
  unfold rule_patterns. intros H.
  repeat (apply elem_of_cons in H as [->|H];
          [apply (bool_decide_unpack _); vm_compute; exact I|]).
  apply elem_of_nil in H. contradiction.
Qed.

Lemma infer_keys results r k :
  _infer_restrictions_from_results results = Some r ->
  is_Some (r !! k) -> k ∈ restriction_keys.
Proof.
  unfold _infer_restrictions_from_results. cbv zeta.
  case_bool_decide as Hd; [discriminate|]. intros [= <-] [v Hv].
  repeat match type of Hv with
         | context [if ?b then _ else _] => destruct b
         end;
    repeat (rewrite lookup_insert in Hv; case_decide;
            [subst k; unfold restriction_keys;
             solve [repeat first [apply list_elem_of_here | apply list_elem_of_further]]|]);
    rewrite lookup_empty in Hv; discriminate.
Qed.

Lemma detect_by_flags t render :
  apply_chat_template t = Some render ->
  detect_chat_restrictions t
  = _infer_restrictions_from_results (foldl (run_pattern render) ∅ _get_test_patterns).
Proof. intros H. unfold detect_chat_restrictions. rewrite H. reflexivity. Qed.

(** X18.  What is detected, rule by rule.  With a renderer present:
    [max_system_messages] is 0 when the conversation with one system message
    raises, 1 when that one renders and the one with two system messages
    raises, and is not set otherwise; [single_system_at_start] is set, to
    true, exactly in the second case; [alternating_turns] and
    [requires_user_last] are set to true, and [allow_empty_messages] to
    false, exactly when their probe raises; no other key is ever set. *)
Theorem detected_constraints t render :
  apply_chat_template t = Some render ->
  detected t "max_system_messages"
  = (if probe_failed render "with-system" then Some (RInt 0%Z)
     else if probe_failed render "multi-system" then Some (RInt 1%Z) else None)
  /\ detected t "single_system_at_start"
     = (if negb (probe_failed render "with-system") && probe_failed render "multi-system"
        then Some (RBool true) else None)
  /\ detected t "alternating_turns"
     = (if probe_failed render "consecutive-user" then Some (RBool true) else None)
  /\ detected t "requires_user_last"
     = (if probe_failed render "assistant-last" then Some (RBool true) else None)
  /\ detected t "allow_empty_messages"
     = (if probe_failed render "empty-message" then Some (RBool false) else None)
  /\ (forall k, k ∉ restriction_keys -> detected t k = None).
Proof.
  intros Hr.
  assert (Hflag : forall name, name ∈ rule_patterns ->
             has_error (foldl (run_pattern render) ∅ _get_test_patterns !! name)
             = probe_failed render name)
    by (intros name Hn; apply has_error_probe, rule_patterns_exist, Hn).
  assert (Hin : forall name, name ∈ rule_patterns -> name ∈ rule_patterns) by auto.
  unfold detected. rewrite (detect_by_flags t render Hr).
  split; [|split; [|split; [|split; [|split]]]].
  6: { intros k Hk.
       destruct (_infer_restrictions_from_results _) as [r|] eqn:E; [|reflexivity].
       destruct (r !! k) eqn:Ek; [|reflexivity].
       exfalso. apply Hk. eapply infer_keys; eauto. }
  all: unfold _infer_restrictions_from_results; cbv zeta;
    rewrite !Hflag
      by (unfold rule_patterns;
          solve [repeat first [apply list_elem_of_here | apply list_elem_of_further]]);
    destruct (probe_failed render "with-system"),
             (probe_failed render "multi-system"),
             (probe_failed render "consecutive-user"),
             (probe_failed render "assistant-last"),
             (probe_failed render "empty-message");
    vm_compute; reflexivity.
Qed.

Lemma detected_constraints_witness :
  apply_chat_template strict_tokenizer = Some strict_render
  /\ detected strict_tokenizer "max_system_messages" = Some (RInt 1%Z)
  /\ detected strict_tokenizer "single_system_at_start" = Some (RBool true)
  /\ detected strict_tokenizer "alternating_turns" = Some (RBool true)
  /\ detected strict_tokenizer "requires_user_last" = None
  /\ detected strict_tokenizer "allow_empty_messages" = None.
Proof.
  split; [reflexivity|].
  destruct (detected_constraints strict_tokenizer strict_render eq_refl)
    as (H1 & H2 & H3 & H4 & H5 & _).
  split; [rewrite H1; vm_compute; reflexivity|].
  split; [rewrite H2; vm_compute; reflexivity|].
  split; [rewrite H3; vm_compute; reflexivity|].
  split; [rewrite H4; vm_compute; reflexivity|].
  rewrite H5; vm_compute; reflexivity.
Defined.

(** X19.  The result depends on the renderer only through which of the five
    rule patterns raise: two renderers that agree on these, whatever they do
    on the patterns basic, alternating and system-middle and whatever the
    texts of their exceptions are, get the same constraints. *)
Theorem detection_depends_on_rule_patterns t1 t2 render1 render2 :
  apply_chat_template t1 = Some render1 ->
  apply_chat_template t2 = Some render2 ->
  (forall name, name ∈ rule_patterns ->
                probe_failed render1 name = probe_failed render2 name) ->
  detect_chat_restrictions t1 = detect_chat_restrictions t2.
Proof.
  intros H1 H2 Hagree.
  rewrite (detect_by_flags t1 render1 H1), (detect_by_flags t2 render2 H2).
  unfold _infer_restrictions_from_results. cbv zeta.
  assert (Hflag : forall name, name ∈ rule_patterns ->
             has_error (foldl (run_pattern render1) ∅ _get_test_patterns !! name)
             = has_error (foldl (run_pattern render2) ∅ _get_test_patterns !! name)).
  { intros name Hn.
    rewrite !has_error_probe by (apply rule_patterns_exist, Hn). apply Hagree, Hn. }
  rewrite !Hflag
    by (unfold rule_patterns;
        solve [repeat first [apply list_elem_of_here | apply list_elem_of_further]]).
  reflexivity.
Qed.

Lemma detection_depends_on_rule_patterns_witness :
  apply_chat_template strict_tokenizer = Some strict_render
  /\ apply_chat_template terse_tokenizer = Some terse_render
  /\ (forall name, name ∈ rule_patterns ->
                   probe_failed strict_render name = probe_failed terse_render name)
  /\ detect_chat_restrictions strict_tokenizer = detect_chat_restrictions terse_tokenizer.
Proof.
  assert (H : forall name, name ∈ rule_patterns ->
                probe_failed strict_render name = probe_failed terse_render name).
  { unfold rule_patterns. intros name Hn.
    repeat (apply elem_of_cons in Hn as [->|Hn]; [vm_compute; reflexivity|]).
    apply elem_of_nil in Hn. contradiction. }
  split; [reflexivity|]. split; [reflexivity|]. split; [exact H|].
  exact (detection_depends_on_rule_patterns strict_tokenizer terse_tokenizer
           strict_render terse_render eq_refl eq_refl H).
Defined.

(** ** More on reading and on the loop *)

Lemma read_loop_first rt lines stdin k v :
  0 < k <= length stdin ->
  Forall (fun line => line <> "") (take k stdin) ->
  (forall j, 0 < j < k -> loads rt (str_concat (lines ++ take j stdin)) = None) ->
  loads rt (str_concat (lines ++ take k stdin)) = Some v ->
  read_loop rt lines stdin = (v, drop k stdin).
Proof.
  revert lines k. induction stdin as [|line rest IH]; intros lines k Hk Hne Hnone Hsome.
  - simpl in Hk. lia.
  - destruct k as [|k]; [lia|]. simpl in Hne. apply Forall_cons in Hne as [Hline Hne].
    simpl. rewrite bool_decide_eq_false_2 by exact Hline.
    destruct k as [|k].
    + simpl in Hsome. rewrite take_0 in Hsome. rewrite Hsome. rewrite drop_0. reflexivity.
    + pose proof (Hnone 1 ltac:(lia)) as H1. simpl in H1. rewrite take_0 in H1.
      rewrite H1. apply IH.
      * simpl in Hk. lia.
      * exact Hne.
      * intros j Hj. rewrite <- app_assoc. apply (Hnone (S j)). lia.
      * rewrite <- app_assoc. exact Hsome.
Qed.

(** X20.  [read] returns the first document that the lines read so far,
    joined, make up: when the first [k] lines are the shortest beginning of
    the input that parses, the value of these lines is the request and the
    input behind them is left for the next one; so a request may be spread
    over several lines. *)
Theorem read_returns_first_document rt stdin k v :
  0 < k <= length stdin ->
  Forall (fun line => line <> "") (take k stdin) ->
  (forall j, 0 < j < k -> loads rt (str_concat (take j stdin)) = None) ->
  loads rt (str_concat (take k stdin)) = Some v ->
  read rt stdin = (v, drop k stdin).
Proof.
  intros Hk Hne Hnone Hsome. apply read_loop_first; assumption.
Qed.

Lemma read_returns_first_document_witness :
  read (session_runtime mock_tokenizer ([], None))
    [pretty_line_1; pretty_line_2; pretty_line_3; generate_line]
  = (JObject (method_only "capabilities"), [generate_line]).
Proof.
  apply (read_returns_first_document
           (session_runtime mock_tokenizer ([], None))
           [pretty_line_1; pretty_line_2; pretty_line_3; generate_line] 3).
  - simpl. lia.
  - repeat constructor; discriminate.
  - intros j Hj. destruct j as [|[|[|j]]]; try lia; vm_compute; reflexivity.
  - vm_compute. reflexivity.
Defined.

Lemma read_one_line rt line rest v :
  line <> "" -> loads rt line = Some v -> read rt (line :: rest) = (v, rest).
Proof.
  intros Hne Hv. unfold read. simpl. rewrite bool_decide_eq_false_2 by exact Hne.
  simpl. rewrite str_app_nil_r, Hv. reflexivity.
Qed.

(** X21.  A line that holds the document [null] ends the loop as the end of
    the input does, and a line that holds a document that is no object (an
    array, a string, a number) ends it with the [AttributeError] of the [get]
    call, which stands outside the [try] and whose text names the type of
    the value; in both cases nothing is written and the lines behind are
    never read. *)
Theorem null_or_non_object_stops_loop rt line rest :
  line <> "" ->
  (loads rt line = Some JNull -> main rt (line :: rest) = ([], Exited))
  /\ (forall type_name,
        loads rt line = Some (JOther type_name) ->
        main rt (line :: rest)
        = ([], Crashed (Exception ("'" +:+ type_name
                                   +:+ "' object has no attribute 'get'")))).
Proof.
  intros Hne. split; [intros Hv | intros type_name Hv];
    rewrite main_unfold, (read_one_line _ _ _ _ Hne Hv); reflexivity.
Qed.

Lemma null_or_non_object_stops_loop_witness :
  null_line <> ""
  /\ main (session_runtime mock_tokenizer ([], None)) [null_line; capabilities_line]
     = ([], Exited)
  /\ main (session_runtime mock_tokenizer ([], None)) [array_line; capabilities_line]
     = ([], Crashed (Exception "'list' object has no attribute 'get'")).
Proof.
  split; [discriminate|]. split.
  - destruct (null_or_non_object_stops_loop
                (session_runtime mock_tokenizer ([], None)) null_line [capabilities_line])
      as [H _]; [discriminate|]. apply H. vm_compute. reflexivity.
  - destruct (null_or_non_object_stops_loop
                (session_runtime mock_tokenizer ([], None)) array_line [capabilities_line])
      as [_ H]; [discriminate|]. apply (H "list"). vm_compute. reflexivity.
Defined.

(** X22.  A session with one request object to a line: the requests are
    served one after the other in the order of the lines, the loop is left
    at the end of the input, and, when the JSON encoder and the primers hold
    no NUL, the output holds as many NUL characters as there were
    requests. *)
Theorem session_serves_every_line rt stdin requests :
  Forall2 (fun line req => line <> "" /\ loads rt line = Some (JObject req))
          stdin requests ->
  main rt stdin = (concat (map (serve rt) requests), Exited)
  /\ ((forall c, count_nul (json_dumps_capabilities rt c) = 0) ->
      (forall r, count_nul (json_dumps_result rt r) = 0) ->
      Forall (fun req => forall p, req_primer req = Some p -> count_nul p = 0) requests ->
      nul_count (fst (main rt stdin)) = length requests).
Proof.
  intros Hall.
  assert (Hmain : main rt stdin = (concat (map (serve rt) requests), Exited)).
  { induction Hall as [|line req stdin requests [Hne Hv] _ IH].
    - rewrite main_unfold. reflexivity.
    - rewrite main_unfold, (read_one_line _ _ _ _ Hne Hv), IH. reflexivity. }
  split; [exact Hmain|].
  intros Hcaps Hres Hprimers. rewrite Hmain. cbn [fst]. clear Hmain Hall.
  induction Hprimers as [|req requests Hp _ IH]; [reflexivity|].
  simpl. rewrite nul_count_app, IH, (serve_nuls rt req Hcaps Hres Hp). reflexivity.
Qed.

Lemma session_serves_every_line_witness :
  Forall2 (fun line req =>
             line <> ""
             /\ loads (session_runtime mock_tokenizer ([text_chunk "Hi" 5%Z; stop_chunk], None))
                  line = Some (JObject req))
    [capabilities_line; generate_line; completion_line]
    [method_only "capabilities"; method_only "generate"; completion_request "Once"]
  /\ stdout_of
       (fst (main (session_runtime mock_tokenizer ([text_chunk "Hi" 5%Z; stop_chunk], None))
               [capabilities_line; generate_line; completion_line]))
     = ["{methods: capabilities,completion,format_test,chat}" +:+ NUL;
        terminator; "Hi"; terminator]
  /\ nul_count
       (fst (main (session_runtime mock_tokenizer ([text_chunk "Hi" 5%Z; stop_chunk], None))
               [capabilities_line; generate_line; completion_line]))
     = 3.
Proof.
  assert (H : Forall2 (fun line req =>
                line <> ""
                /\ loads (session_runtime mock_tokenizer
                            ([text_chunk "Hi" 5%Z; stop_chunk], None))
                     line = Some (JObject req))
               [capabilities_line; generate_line; completion_line]
               [method_only "capabilities"; method_only "generate";
                completion_request "Once"]).
  { repeat constructor; try discriminate; vm_compute; reflexivity. }
  split; [exact H|].
  destruct (session_serves_every_line _ _ _ H) as [Hmain Hnul]. split.
  - rewrite Hmain. vm_compute. reflexivity.
  - apply Hnul.
    + intros c. apply count_nul_removed.
    + intros r. apply count_nul_removed.
    + repeat constructor; intros p Hp; discriminate Hp.
Defined.

(** X23.  The loop comes to an end on every finite input: a request that is
    read takes at least one line off the input, and the loop ends by leaving
    at the end of the input or by the exception of a request that is no
    object. *)
Theorem main_terminates rt stdin :
  (forall req rest, read rt stdin = (JObject req, rest) -> length rest < length stdin)
  /\ (snd (main rt stdin) = Exited \/ exists e, snd (main rt stdin) = Crashed e).
Proof.
  split.
  - intros req rest. apply read_object_shorter.
  - pose proof (main_finishes rt stdin) as H.
    destruct (snd (main rt stdin)) as [|e|]; [left; reflexivity | right; eauto | congruence].
Qed.
